(** * Interaction-state models of the sun widget toolkit

    A shallow embedding of the button models, the radio-button
    interaction-state derivation, the AquaRadioButton activation, the
    AccessibleNumberSpinner keyboard-repeat listener and the ComboBox
    open/close/dismiss machinery, together with the properties stated
    about them.

    Conventions shared by all modules:
    - an axon [Property] is a mutable cell whose [set] stores the new
      value and notifies the linked listeners only when the value
      changes; [link] also calls the listener once with the current value;
    - every object is a record of its fields, every method a function on
      that record; listeners that the constructor links are inlined at
      the place where the property is set;
    - calls into collaborators that have no state of interest
      (sound players, emitters, preventDefault) are recorded in an
      effect log carried by the state. *)

From stdpp Require Import base decidable option list gmap strings.
From Stdlib Require Import Lia QArith.

Close Scope Q_scope.

Set Default Proof Using "Type".
Set Warnings "-clear-no-such-hyp".

(* ===================================================================== *)
(** * PushButtonModel (js/demo/ComponentsScreenView.ts, second unit) *)
(* ===================================================================== *)

Module PushButton.

(** The [PropertySet] of the model ([over], [down], [enabled]) and the
    number of times [fire] has run. [fire] calls every registered
    listener once, so counting the calls of [fire] is counting the
    activations seen by each listener. *)
Record PushButtonModel := mkModel {
  over : bool;
  down : bool;
  enabled : bool;
  fireCount : nat
}.

(** [PropertySet.call( this, { over: false, down: false, enabled: true } )].
    Linking the two [onValue] observers calls the [false] one once with
    [over = false], which does not fire. *)
Definition init : PushButtonModel :=
  {| over := false; down := false; enabled := true; fireCount := 0 |}.

(** The derived property [interactionState]. *)
Definition interactionState (over down enabled : bool) : string :=
  if negb enabled then "disabled"%string
  else if over && negb down then "over"%string
  else if over && down then "pressed"%string
  else "idle"%string.

(** [fire]: runs the listeners. *)
Definition fire (m : PushButtonModel) : PushButtonModel :=
  {| over := over m; down := down m; enabled := enabled m;
     fireCount := S (fireCount m) |}.

(** [this.property( 'down' ).onValue( true, ... )] *)
Definition onDownTrue (fireOnDown : bool) (m : PushButtonModel) : PushButtonModel :=
  if fireOnDown && enabled m then fire m else m.

(** [this.property( 'down' ).onValue( false, ... )] *)
Definition onDownFalse (fireOnDown : bool) (m : PushButtonModel) : PushButtonModel :=
  if negb fireOnDown && over m && enabled m then fire m else m.

(** [buttonModel.down = v]: the property notifies its observers only when
    the value changes; each [onValue] observer runs for its own value. *)
Definition set_down (fireOnDown : bool) (v : bool) (m : PushButtonModel) : PushButtonModel :=
  if bool_decide (down m = v) then m
  else
    let m' := {| over := over m; down := v; enabled := enabled m;
                 fireCount := fireCount m |} in
    if v then onDownTrue fireOnDown m' else onDownFalse fireOnDown m'.

Definition set_over (v : bool) (m : PushButtonModel) : PushButtonModel :=
  {| over := v; down := down m; enabled := enabled m; fireCount := fireCount m |}.

Definition set_enabled (v : bool) (m : PushButtonModel) : PushButtonModel :=
  {| over := over m; down := down m; enabled := v; fireCount := fireCount m |}.

(** The input events of the button model. *)
Inductive Event :=
| pointerEnter
| pointerExit
| pointerDown
| pointerUp
| setEnabled (b : bool).

#[global] Instance Event_eq_dec : EqDecision Event.
Proof. solve_decision. Defined.

(** Modelled from the spec: the input listener that turns pointer events
    into flag updates (ButtonListener) is not among the sources; following
    section 4.1, entering and leaving set [over], pressing and releasing
    set [down], and [setEnabled] sets [enabled]. *)
Definition step (fireOnDown : bool) (e : Event) (m : PushButtonModel) : PushButtonModel :=
  match e with
  | pointerEnter => set_over true m
  | pointerExit => set_over false m
  | pointerDown => set_down fireOnDown true m
  | pointerUp => set_down fireOnDown false m
  | setEnabled b => set_enabled b m
  end.

(** Events are processed one after the other, oldest first. *)
Definition run (fireOnDown : bool) (evs : list Event) (m : PushButtonModel) : PushButtonModel :=
  foldl (fun acc e => step fireOnDown e acc) m evs.

(** Did processing [e] in [m] call [fire]? *)
Definition fired (fireOnDown : bool) (e : Event) (m : PushButtonModel) : bool :=
  negb (Nat.eqb (fireCount (step fireOnDown e m)) (fireCount m)).

(** The precedence order as the specification words it. *)
Definition spec_interactionState (over down enabled : bool) : string :=
  if negb enabled then "disabled"%string
  else if down && enabled then "pressed"%string
  else if over && enabled && negb down then "over"%string
  else "idle"%string.

(** Trace vocabulary: in the events [pre] seen so far there is a
    [pointerDown] that no later [pointerUp] has matched yet. *)
Definition pressedIn (pre : list Event) : Prop :=
  exists l1 l2, pre = l1 ++ pointerDown :: l2 /\ pointerUp ∉ l2.

(** In the events seen so far the pointer has entered and not left since. *)
Definition overIn (pre : list Event) : Prop :=
  exists l1 l2, pre = l1 ++ pointerEnter :: l2 /\ pointerExit ∉ l2.

(** The model is never disabled by the sequence. *)
Definition staysEnabled (evs : list Event) : Prop :=
  Forall (fun e => e <> setEnabled false) evs.

End PushButton.

(* ===================================================================== *)
(** * RadioButtonInteractionStateProperty (unnamed/part_003, first unit) *)
(* ===================================================================== *)

Module RadioButton.

(** [RadioButtonInteractionState], an enumeration with four static instances. *)
Inductive RadioButtonInteractionState :=
| SELECTED
| DESELECTED
| OVER
| PRESSED.

#[global] Instance RadioButtonInteractionState_eq_dec :
  EqDecision RadioButtonInteractionState.
Proof. solve_decision. Defined.

Section Derivation.
(** The type of the values held by the shared Property; [===] on it is
    a decidable equality. *)
Context {T : Type} `{EqDecision T}.

(** The derivation function passed to [DerivedProperty]: [value] is the
    value set by the button, the five other arguments are the current
    values of the dependencies, in the order of the source. *)
Definition derivation (value : T)
    (focused over looksOver looksPressed : bool) (propertyValue : T)
  : RadioButtonInteractionState :=
  let isSelected := bool_decide (propertyValue = value) in
  if looksOver && negb (looksPressed || isSelected) then OVER
  else if (over || focused) && looksPressed then PRESSED
  else if isSelected then SELECTED
  else DESELECTED.

(** The derivation as the specification words it: it tests [over] where
    the source tests [looksOver]. *)
Definition spec_derivation (value : T)
    (focused over looksOver looksPressed : bool) (propertyValue : T)
  : RadioButtonInteractionState :=
  let selected := bool_decide (propertyValue = value) in
  if over && negb (looksPressed || selected) then OVER
  else if (over || focused) && looksPressed then PRESSED
  else if selected then SELECTED
  else DESELECTED.

(** One member of a radio button group: the value it stands for and the
    flags of its ButtonModel. *)
Record Member := mkMember {
  value : T;
  focused : bool;
  over : bool;
  looksOver : bool;
  looksPressed : bool
}.

(** The value of the member's RadioButtonInteractionStateProperty when the
    shared value cell holds [propertyValue]. *)
Definition stateOf (propertyValue : T) (m : Member) : RadioButtonInteractionState :=
  derivation (value m) (focused m) (over m) (looksOver m) (looksPressed m)
             propertyValue.

(** The member is the selected one: the cell holds its value. *)
Definition isSelected (propertyValue : T) (m : Member) : bool :=
  bool_decide (propertyValue = value m).

(** The member is being pressed. *)
Definition isPressed (m : Member) : bool :=
  (over m || focused m) && looksPressed m.

(** The members of the group whose property reports [st]. *)
Definition reporting (st : RadioButtonInteractionState) (propertyValue : T)
    (group : list Member) : list Member :=
  filter (fun m => stateOf propertyValue m = st) group.

(** The values declared by the group. *)
Definition declared (group : list Member) : list T := value <$> group.

End Derivation.

Arguments Member : clear implicits.

(** The group used below: the button of value 0 is being pressed with the
    pointer over it, the button of value 1 is at rest. *)
Definition pressed_pair : list (Member nat) :=
  [ {| value := 0; focused := false; over := true; looksOver := true;
       looksPressed := true |};
    {| value := 1; focused := false; over := false; looksOver := false;
       looksPressed := false |} ].

End RadioButton.

(* ===================================================================== *)
(** * AquaRadioButton (js/AquaRadioButton.ts) *)
(* ===================================================================== *)

Module AquaRadioButton.

Section Button.
Context {T : Type} `{EqDecision T}.

(** The button together with the Property it sets: the Property's
    value, what the two linked listeners last wrote ([syncWithModel]
    writes the visibility of the two nodes, [pdomCheckedListener] writes
    [pdomChecked]), the number of times the listeners were notified, and
    the number of calls of [options.soundPlayer.play()]. *)
Record State := mkState {
  propertyValue : T;
  selectedVisible : bool;
  deselectedVisible : bool;
  pdomChecked : bool;
  notifications : nat;
  soundPlays : nat
}.

(** [syncWithModel] followed by [pdomCheckedListener], the two listeners
    that the constructor links to the Property, for the button of
    [value]. *)
Definition notify (value : T) (s : State) : State :=
  let newValue := propertyValue s in
  let selected := bool_decide (newValue = value) in
  {| propertyValue := newValue;
     selectedVisible := selected;
     deselectedVisible := negb selected;
     pdomChecked := bool_decide (newValue = value);
     notifications := S (notifications s);
     soundPlays := soundPlays s |}.

(** The state right after construction over a Property holding [v0]:
    [link] has called both listeners once. *)
Definition init (value v0 : T) : State :=
  notify value
    {| propertyValue := v0; selectedVisible := true; deselectedVisible := true;
       pdomChecked := false; notifications := 0; soundPlays := 0 |}.

(** [property.set( v )]: stores [v] and notifies the listeners when the
    value changes. *)
Definition property_set (value v : T) (s : State) : State :=
  if bool_decide (propertyValue s = v) then s
  else notify value
    {| propertyValue := v;
       selectedVisible := selectedVisible s;
       deselectedVisible := deselectedVisible s;
       pdomChecked := pdomChecked s;
       notifications := notifications s;
       soundPlays := soundPlays s |}.

(** [options.soundPlayer.play()] *)
Definition play (s : State) : State :=
  {| propertyValue := propertyValue s;
     selectedVisible := selectedVisible s;
     deselectedVisible := deselectedVisible s;
     pdomChecked := pdomChecked s;
     notifications := notifications s;
     soundPlays := S (soundPlays s) |}.

(** [fire]: the listener of both the FireListener (pointer) and the
    [change] input listener (keyboard). *)
Definition fire (value : T) (s : State) : State :=
  play (property_set value value s).

(** The two ways of activating the button. *)
Inductive Activation :=
| pointerFire
| keyboardChange.

Definition activate (value : T) (a : Activation) (s : State) : State :=
  match a with
  | pointerFire => fire value s
  | keyboardChange => fire value s
  end.

End Button.

Arguments State : clear implicits.

(** A button of value 2 over a Property holding 1, used below. *)
Definition sample : State nat := init 2 1.

End AquaRadioButton.

(* ===================================================================== *)
(** * AccessibleNumberSpinner (js/buttons/BooleanRectangularToggleButton.ts, second unit) *)
(* ===================================================================== *)

Module Spinner.

(** A DOM keyboard event, reduced to the two fields the listener reads. *)
Record KeyboardEvent := mkKey {
  code : string;
  metaKey : bool
}.

#[global] Instance KeyboardEvent_eq_dec : EqDecision KeyboardEvent.
Proof. solve_decision. Defined.

(** Modelled from the spec: KeyboardUtils belongs to the scene-graph
    library and is not among the sources. The recognized range keys are
    the arrow, page, home and end keys (section 4.5); [getEventCode] is
    the [code] of the event and [isAnyKeyEvent] tests membership of that
    code. *)
Definition KEY_UP_ARROW : string := "ArrowUp".
Definition KEY_DOWN_ARROW : string := "ArrowDown".
Definition KEY_LEFT_ARROW : string := "ArrowLeft".
Definition KEY_RIGHT_ARROW : string := "ArrowRight".
Definition KEY_PAGE_UP : string := "PageUp".
Definition KEY_PAGE_DOWN : string := "PageDown".
Definition KEY_HOME : string := "Home".
Definition KEY_END : string := "End".

Definition getEventCode (e : KeyboardEvent) : string := code e.

Definition isAnyKeyEvent (e : KeyboardEvent) (keys : list string) : bool :=
  bool_decide (code e ∈ keys).

Definition isRangeKey (e : KeyboardEvent) : bool :=
  isAnyKeyEvent e [KEY_UP_ARROW; KEY_DOWN_ARROW; KEY_LEFT_ARROW; KEY_RIGHT_ARROW;
                   KEY_PAGE_UP; KEY_PAGE_DOWN; KEY_HOME; KEY_END].

(** What the listener does to its collaborators, in order. *)
Inductive Effect :=
| PreventDefault
| HandleKeyDown (e : KeyboardEvent)   (* the action: AccessibleValueHandler.handleKeyDown *)
| HandleKeyUp (e : KeyboardEvent)
| HandleBlur
| IncrementDownEmit (isDown : bool)
| DecrementDownEmit (isDown : bool).

#[global] Instance Effect_eq_dec : EqDecision Effect.
Proof. solve_decision. Defined.

(** Modelled from the spec: CallbackTimer belongs to the axon library and
    is not among the sources. Following section 4.5, [start] schedules a
    one-shot callback after [delay] milliseconds which performs the first
    repeated call of the registered callbacks, after which they are called
    again every [interval] milliseconds until [stop]. Time advances in
    ticks of one millisecond; [Delaying r] and [Repeating r] hold the
    milliseconds left until the next call. A callback is
    [_accessibleNumberSpinnerHandleKeyDown] bound to a keyboard event and
    is identified by that event. *)
Inductive Phase :=
| Stopped
| Delaying (remaining : nat)
| Repeating (remaining : nat).

Record CallbackTimer := mkTimer {
  delay : nat;
  interval : nat;
  callbacks : list KeyboardEvent;
  phase : Phase
}.

Definition isRunning (t : CallbackTimer) : bool :=
  match phase t with Stopped => false | _ => true end.

Definition addCallback (cb : KeyboardEvent) (t : CallbackTimer) : CallbackTimer :=
  {| delay := delay t; interval := interval t;
     callbacks := if bool_decide (cb ∈ callbacks t) then callbacks t
                  else callbacks t ++ [cb];
     phase := phase t |}.

Fixpoint remove_first (cb : KeyboardEvent) (l : list KeyboardEvent) : list KeyboardEvent :=
  match l with
  | [] => []
  | x :: l' => if bool_decide (x = cb) then l' else x :: remove_first cb l'
  end.

Definition removeCallback (cb : option KeyboardEvent) (t : CallbackTimer) : CallbackTimer :=
  match cb with
  | None => t
  | Some c =>
    {| delay := delay t; interval := interval t;
       callbacks := remove_first c (callbacks t);
       phase := phase t |}
  end.

Definition start (t : CallbackTimer) : CallbackTimer :=
  if isRunning t then t
  else {| delay := delay t; interval := interval t;
          callbacks := callbacks t; phase := Delaying (delay t) |}.

(** [stop( false )]: cancels the pending calls without a last call. *)
Definition stop (t : CallbackTimer) : CallbackTimer :=
  {| delay := delay t; interval := interval t;
     callbacks := callbacks t; phase := Stopped |}.

(** The options of the trait that concern the timer. *)
Record Options := mkOptions {
  timerDelay : nat;
  timerInterval : nat
}.

(** The defaults given to [optionize]. *)
Definition defaultOptions : Options :=
  {| timerDelay := 400; timerInterval := 100 |}.

(** The node with the trait: its [enabledProperty], the timer, the two
    variables captured by the listener, and the effects so far. *)
Record State := mkState {
  enabled : bool;
  timer : CallbackTimer;
  downCallback : option KeyboardEvent;
  runningTimerCallbackEvent : option KeyboardEvent;
  log : list Effect
}.

Definition init (o : Options) : State :=
  {| enabled := true;
     timer := {| delay := timerDelay o; interval := timerInterval o;
                 callbacks := []; phase := Stopped |};
     downCallback := None;
     runningTimerCallbackEvent := None;
     log := [] |}.

Definition emit (x : Effect) (s : State) : State :=
  {| enabled := enabled s; timer := timer s; downCallback := downCallback s;
     runningTimerCallbackEvent := runningTimerCallbackEvent s;
     log := log s ++ [x] |}.

Definition with_timer (t : CallbackTimer) (s : State) : State :=
  {| enabled := enabled s; timer := t; downCallback := downCallback s;
     runningTimerCallbackEvent := runningTimerCallbackEvent s;
     log := log s |}.

Definition with_down (cb ev : option KeyboardEvent) (s : State) : State :=
  {| enabled := enabled s; timer := timer s; downCallback := cb;
     runningTimerCallbackEvent := ev;
     log := log s |}.

(** [_emitKeyState] *)
Definition _emitKeyState (e : KeyboardEvent) (isDown : bool) (s : State) : State :=
  if isAnyKeyEvent e [KEY_UP_ARROW; KEY_RIGHT_ARROW] then
    emit (IncrementDownEmit isDown) s
  else if isAnyKeyEvent e [KEY_DOWN_ARROW; KEY_LEFT_ARROW] then
    emit (DecrementDownEmit isDown) s
  else s.

(** [_accessibleNumberSpinnerHandleKeyDown] *)
Definition _accessibleNumberSpinnerHandleKeyDown (e : KeyboardEvent) (s : State) : State :=
  _emitKeyState e true (emit (HandleKeyDown e) s).

(** [accessibleInputListener.keydown]: everything happens under the
    [enabledProperty] guard; [preventDefault] is called for every range
    key, the rest only without the meta key and while no timer runs. *)
Definition keydown (e : KeyboardEvent) (s : State) : State :=
  if enabled s then
    if isRangeKey e then
      let s := emit PreventDefault s in
      if negb (metaKey e) then
        if negb (isRunning (timer s)) then
          let s := _accessibleNumberSpinnerHandleKeyDown e s in
          let s := with_down (Some e) (Some e) s in
          let s := with_timer (addCallback e (timer s)) s in
          with_timer (start (timer s)) s
        else s
      else s
    else s
  else s.

(** [accessibleInputListener.keyup]: the timer is stopped when the
    released key has the code of the event that armed it;
    [handleKeyUp] is called for every range key. *)
Definition keyup (e : KeyboardEvent) (s : State) : State :=
  let key := getEventCode e in
  if isRangeKey e then
    let s :=
      match runningTimerCallbackEvent s with
      | Some running =>
        if bool_decide (key = getEventCode running) then
          let s := _emitKeyState e false s in
          let s := with_timer (stop (timer s)) s in
          let s := with_timer (removeCallback (downCallback s) (timer s)) s in
          with_down None None s
        else s
      | None => s
      end in
    emit (HandleKeyUp e) s
  else s.

(** [accessibleInputListener.blur]. The source asserts that
    [runningTimerCallbackEvent] is set whenever [downCallback] is; both
    are assigned together, so the [None] case below is never reached from
    [init]. Blur leaves the two variables as they are. *)
Definition blur (s : State) : State :=
  let s :=
    match downCallback s with
    | Some cb =>
      let s := match runningTimerCallbackEvent s with
               | Some running => _emitKeyState running false s
               | None => s
               end in
      let s := with_timer (stop (timer s)) s in
      with_timer (removeCallback (Some cb) (timer s)) s
    | None => s
    end in
  emit HandleBlur s.

(** Calling the registered callbacks, oldest first. *)
Definition fireCallbacks (s : State) : State :=
  foldl (fun acc cb => _accessibleNumberSpinnerHandleKeyDown cb acc) s
        (callbacks (timer s)).

Definition with_phase (p : Phase) (s : State) : State :=
  with_timer {| delay := delay (timer s); interval := interval (timer s);
                callbacks := callbacks (timer s); phase := p |} s.

(** One millisecond passes. *)
Definition tick (s : State) : State :=
  match phase (timer s) with
  | Stopped => s
  | Delaying r =>
    if r <=? 1 then fireCallbacks (with_phase (Repeating (interval (timer s))) s)
    else with_phase (Delaying (r - 1)) s
  | Repeating r =>
    if r <=? 1 then fireCallbacks (with_phase (Repeating (interval (timer s))) s)
    else with_phase (Repeating (r - 1)) s
  end.

Definition set_enabled (b : bool) (s : State) : State :=
  {| enabled := b; timer := timer s; downCallback := downCallback s;
     runningTimerCallbackEvent := runningTimerCallbackEvent s;
     log := log s |}.

(** What can happen to the spinner. *)
Inductive Input :=
| Keydown (e : KeyboardEvent)
| Keyup (e : KeyboardEvent)
| Blur
| Tick
| SetEnabled (b : bool).

#[global] Instance Input_eq_dec : EqDecision Input.
Proof. solve_decision. Defined.

Definition step (i : Input) (s : State) : State :=
  match i with
  | Keydown e => keydown e s
  | Keyup e => keyup e s
  | Blur => blur s
  | Tick => tick s
  | SetEnabled b => set_enabled b s
  end.

Definition run (ins : list Input) (s : State) : State :=
  foldl (fun acc i => step i acc) s ins.

(** The actions performed so far: the events passed to [handleKeyDown]. *)
Definition actions (l : list Effect) : list KeyboardEvent :=
  omap (fun x => match x with HandleKeyDown e => Some e | _ => None end) l.

(** The number of calls of [preventDefault] so far. *)
Definition preventDefaults (l : list Effect) : nat :=
  length (filter (fun x => x = PreventDefault) l).

(** The milliseconds that pass in a sequence of inputs. *)
Definition ticksIn (ins : list Input) : nat :=
  length (filter (fun i => i = Tick) ins).

(** The number of repeated actions due [n] milliseconds after the timer
    was started: none before [d], one at [d] and one every [i] after. *)
Definition repeats (d i n : nat) : nat :=
  if n <? d then 0 else 1 + (n - d) / i.

(** The inputs that leave a timer armed by [e] alone: no blur and no
    keyup of the key of [e]. *)
Definition holds (e : KeyboardEvent) (ins : list Input) : Prop :=
  Forall (fun i => i <> Blur /\
                   forall e', i = Keyup e' -> getEventCode e' <> getEventCode e) ins.

(** The timer phase [n] milliseconds after a start with delay [d] and
    interval [i]. *)
Definition phaseAfter (d i n : nat) : Phase :=
  if n <? d then Delaying (d - n) else Repeating (i - (n - d) mod i).

(** A state whose timer was armed by [e], [n] milliseconds ago, and that
    had performed the actions [base] before. *)
Record Armed (o : Options) (e : KeyboardEvent) (base : list KeyboardEvent)
    (n : nat) (s : State) : Prop := {
  armed_timer :
    timer s = {| delay := timerDelay o; interval := timerInterval o;
                 callbacks := [e];
                 phase := phaseAfter (timerDelay o) (timerInterval o) n |};
  armed_down : downCallback s = Some e;
  armed_event : runningTimerCallbackEvent s = Some e;
  armed_actions :
    actions (log s) =
    base ++ replicate (1 + repeats (timerDelay o) (timerInterval o) n) e
}.

(** What every state reached from [init o] satisfies: the timer keeps the
    configured delays, holds no callback while stopped, and while running
    holds the one callback bound to the event that armed it. *)
Definition wellFormed (o : Options) (s : State) : Prop :=
  delay (timer s) = timerDelay o /\
  interval (timer s) = timerInterval o /\
  match phase (timer s) with
  | Stopped => callbacks (timer s) = []
  | _ => exists e, callbacks (timer s) = [e] /\ downCallback s = Some e /\
                   runningTimerCallbackEvent s = Some e
  end.

(** Sample events and states used in the examples. *)
Definition arrowUp : KeyboardEvent := {| code := KEY_UP_ARROW; metaKey := false |}.
Definition pageDown : KeyboardEvent := {| code := KEY_PAGE_DOWN; metaKey := false |}.
Definition metaArrowUp : KeyboardEvent := {| code := KEY_UP_ARROW; metaKey := true |}.
Definition disabledSpinner : State := set_enabled false (init defaultOptions).

End Spinner.

(* ===================================================================== *)
(** * ComboBox (js/ComboBox.ts) *)
(* ===================================================================== *)

Module ComboBox.

(** A call either returns or throws (a failed assertion or a TypeError). *)
Inductive result (A : Type) :=
| Ok (a : A)
| Throws (msg : string).
Arguments Ok {A} a.
Arguments Throws {A} msg.

#[global] Instance result_ret : MRet result := fun A a => Ok a.
#[global] Instance result_bind : MBind result := fun A B f m =>
  match m with
  | Ok a => f a
  | Throws msg => Throws msg
  end.

(** Displays and input listeners are objects compared by identity. *)
Abbreviation Display := nat (only parsing).
Abbreviation Listener := nat (only parsing).

(** The input listeners registered on each display
    ([Display._inputListeners]); a display without an entry has none. *)
Abbreviation Registry := (gmap nat (list nat)) (only parsing).

Definition listenersOf (w : Registry) (d : Display) : list Listener :=
  default [] (w !! d).

(** Modelled from the spec: Display belongs to the scene-graph library and
    is not among the sources. [hasInputListener] tests membership in the
    display's listener array, [addInputListener] appends a listener that
    is not registered yet, [removeInputListener] removes a registered
    one; both assert their precondition. *)
Definition hasInputListener (d : Display) (l : Listener) (w : Registry) : bool :=
  bool_decide (l ∈ listenersOf w d).

Definition addInputListener (d : Display) (l : Listener) (w : Registry) : result Registry :=
  if hasInputListener d l w
  then Throws "Input listener already registered on this Display"
  else Ok (<[d := listenersOf w d ++ [l]]> w).

Definition removeInputListener (d : Display) (l : Listener) (w : Registry) : result Registry :=
  if hasInputListener d l w
  then Ok (<[d := filter (fun x => x <> l) (listenersOf w d)]> w)
  else Throws "Input listener not registered on this Display".

(** Calls on collaborators, in order. *)
Inductive Effect :=
| ScaleListBox
| MoveToFront
| MoveListBox
| FocusListBox
| AttachDismissListener (d : Display)
| DetachDismissListener (d : Display)
| ButtonSetDisplayOnly (b : bool).

Definition isDetach (x : Effect) : bool :=
  match x with DetachDismissListener _ => true | _ => false end.

(** The combo box and the part of its surroundings that it reads:
    [visible] is [listBox.visibleProperty], [display] the field of the
    same name, [displayOnly] the [displayOnlyProperty], [rootedDisplays]
    what [getUniqueTrail().rootNode().getRootedDisplays()] returns at the
    moment, [inputListeners] the listener arrays of all displays. *)
Record State := mkState {
  visible : bool;
  display : option Display;
  displayOnly : bool;
  pickable : bool;
  rootedDisplays : list Display;
  inputListeners : Registry;
  effects : list Effect
}.

Definition emit (xs : list Effect) (s : State) : State :=
  {| visible := visible s; display := display s; displayOnly := displayOnly s;
     pickable := pickable s; rootedDisplays := rootedDisplays s;
     inputListeners := inputListeners s; effects := effects s ++ xs |}.

Definition with_visible (v : bool) (s : State) : State :=
  {| visible := v; display := display s; displayOnly := displayOnly s;
     pickable := pickable s; rootedDisplays := rootedDisplays s;
     inputListeners := inputListeners s; effects := effects s |}.

Definition with_display (d : option Display) (w : Registry) (s : State) : State :=
  {| visible := visible s; display := d; displayOnly := displayOnly s;
     pickable := pickable s; rootedDisplays := rootedDisplays s;
     inputListeners := w; effects := effects s |}.

(** A pointer event, reduced to what the dismiss listener asks its trail. *)
Record DownEvent := mkDown {
  trailContainsButton : bool;
  trailContainsListBox : bool
}.

(** The fuzz-testing surroundings of one event: [phet.chipper.isFuzzEnabled()]
    and the next value of [dotRandom.nextDouble()]. *)
Record Fuzz := mkFuzz {
  isFuzzEnabled : bool;
  nextDouble : Q
}.

(** [nextDouble < 0.005] *)
Definition belowThreshold (x : Q) : bool := negb (Qle_bool (5 # 1000) x).

Section Instance.
(** [this.clickToDismissListener], an object of this combo box alone. *)
Variable clickToDismissListener : Listener.

(** The listener linked to [listBox.visibleProperty]. Showing lays the
    list box out, asserts that no display is tracked, takes the first
    rooted display (a TypeError when there is none) and registers the
    dismiss listener on it. Hiding unregisters the listener from the
    tracked display, if any, and clears the field. *)
Definition visibleListener (vis : bool) (s : State) : result State :=
  if vis then
    let s := emit [ScaleListBox; MoveToFront; MoveListBox] s in
    match display s with
    | Some _ => Throws "Assertion failed: unexpected display"
    | None =>
      match head (rootedDisplays s) with
      | None => Throws "TypeError: this.display is undefined"
      | Some d =>
        w ← addInputListener d clickToDismissListener (inputListeners s);
        Ok (emit [AttachDismissListener d] (with_display (Some d) w s))
      end
    end
  else
    match display s with
    | Some d =>
      if hasInputListener d clickToDismissListener (inputListeners s) then
        w ← removeInputListener d clickToDismissListener (inputListeners s);
        Ok (emit [DetachDismissListener d] (with_display None w s))
      else Ok s
    | None => Ok s
    end.

(** [this.listBox.visibleProperty.value = v]: the listener runs only
    when the value changes. *)
Definition set_visible (v : bool) (s : State) : result State :=
  if bool_decide (visible s = v) then Ok s
  else visibleListener v (with_visible v s).

(** [showListBox] *)
Definition showListBox (s : State) : result State := set_visible true s.

(** [hideListBox] *)
Definition hideListBox (s : State) : result State := set_visible false s.

(** The listener added to the button: clicking toggles the list box. *)
Definition buttonListener (s : State) : result State :=
  s ← set_visible (negb (visible s)) s;
  Ok (if visible s then emit [FocusListBox] s else s).

(** [clickToDismissListener.down]: under fuzz testing the listener acts
    only when the random draw is below 0.005; it hides the list box when
    the trail of the event contains neither the button nor the list box. *)
Definition clickToDismissListener_down (fz : Fuzz) (event : DownEvent) (s : State)
  : result State :=
  if negb (isFuzzEnabled fz) || belowThreshold (nextDouble fz) then
    if negb (trailContainsButton event || trailContainsListBox event) then
      hideListBox s
    else Ok s
  else Ok s.

(** [dismissWithFocusListener]: [focus] is [None] for a null focus and
    otherwise says whether the focused trail contains the list box. *)
Definition dismissWithFocusListener (focus : option bool) (s : State) : result State :=
  match focus with
  | Some containsListBox =>
    if negb containsListBox then hideListBox s else Ok s
  | None => Ok s
  end.

(** The listener linked to [displayOnlyProperty]. *)
Definition displayOnlyListener (b : bool) (s : State) : result State :=
  s ← hideListBox s;
  let s := emit [ButtonSetDisplayOnly b] s in
  Ok {| visible := visible s; display := display s; displayOnly := displayOnly s;
        pickable := negb b; rootedDisplays := rootedDisplays s;
        inputListeners := inputListeners s; effects := effects s |}.

Definition set_displayOnly (b : bool) (s : State) : result State :=
  if bool_decide (displayOnly s = b) then Ok s
  else displayOnlyListener b
    {| visible := visible s; display := display s; displayOnly := b;
       pickable := pickable s; rootedDisplays := rootedDisplays s;
       inputListeners := inputListeners s; effects := effects s |}.

(** A pointer-down dispatched by display [d] reaches the input
    listeners registered on [d]. *)
Definition dispatchDown (d : Display) (fz : Fuzz) (event : DownEvent) (s : State)
  : result State :=
  if hasInputListener d clickToDismissListener (inputListeners s)
  then clickToDismissListener_down fz event s
  else Ok s.

(** The scene changes: the combo box is rooted in other displays. *)
Definition sceneChange (ds : list Display) (s : State) : State :=
  {| visible := visible s; display := display s; displayOnly := displayOnly s;
     pickable := pickable s; rootedDisplays := ds;
     inputListeners := inputListeners s; effects := effects s |}.

(** What can happen to a combo box. [ItemSelected] is the list box
    calling the hide callback it was given, which is [hideListBox]. *)
Inductive Input :=
| ButtonFire
| ShowListBox
| HideListBox
| ItemSelected
| PointerDown (d : Display) (fz : Fuzz) (event : DownEvent)
| FocusChange (focus : option bool)
| SetDisplayOnly (b : bool)
| SceneChange (ds : list Display).

Definition step (i : Input) (s : State) : result State :=
  match i with
  | ButtonFire => buttonListener s
  | ShowListBox => showListBox s
  | HideListBox => hideListBox s
  | ItemSelected => hideListBox s
  | PointerDown d fz event => dispatchDown d fz event s
  | FocusChange focus => dismissWithFocusListener focus s
  | SetDisplayOnly b => set_displayOnly b s
  | SceneChange ds => Ok (sceneChange ds s)
  end.

Fixpoint run (ins : list Input) (s : State) : result State :=
  match ins with
  | [] => Ok s
  | i :: ins' => s' ← step i s; run ins' s'
  end.

(** The combo box right after construction, in a scene rooted in the
    displays [ds] whose listeners are [w]: the list box is created
    invisible, and the listeners linked by the constructor have run once
    ([visibleListener false], then [displayOnlyListener false]). *)
Definition init (ds : list Display) (w : Registry) : State :=
  {| visible := false; display := None; displayOnly := false;
     pickable := true; rootedDisplays := ds; inputListeners := w;
     effects := [ButtonSetDisplayOnly false] |}.

(** The dismiss listener is registered on display [d]. *)
Definition attachedTo (s : State) (d : Display) : Prop :=
  clickToDismissListener ∈ listenersOf (inputListeners s) d.

(** The number of attempts to detach the dismiss listener so far. *)
Definition detaches (s : State) : nat :=
  length (filter (fun x => isDetach x = true) (effects s)).

(** The invariant of the specification: the list box is visible exactly
    when the dismiss listener is attached, and then it is attached to
    the one display held in the [display] field, otherwise the field is
    cleared. *)
Definition consistent (s : State) : Prop :=
  if visible s
  then exists d, display s = Some d /\ forall d', attachedTo s d' <-> d' = d
  else display s = None /\ forall d', ~ attachedTo s d'.

End Instance.

(** Sample surroundings used in the examples: the dismiss listener is
    object 7, the scene has the single display 0 with no listeners yet. *)
Definition sampleStart : State := init [0] ∅.

(** Fuzz testing is on and the random draw is one half. *)
Definition fuzzing : Fuzz := {| isFuzzEnabled := true; nextDouble := 1 # 2 |}.

(** Fuzz testing is off. *)
Definition notFuzzing : Fuzz := {| isFuzzEnabled := false; nextDouble := 1 # 2 |}.

(** A pointer-down outside both the button and the list box. *)
Definition outside : DownEvent :=
  {| trailContainsButton := false; trailContainsListBox := false |}.

(** The sample combo box after one click on its button: open, with the
    dismiss listener on display 0. *)
Definition sampleOpen : State :=
  {| visible := true; display := Some 0; displayOnly := false; pickable := true;
     rootedDisplays := [0]; inputListeners := <[0 := [7]]> ∅;
     effects := [ButtonSetDisplayOnly false; ScaleListBox; MoveToFront; MoveListBox;
                 AttachDismissListener 0; FocusListBox] |}.

(** Every scene of the sequence has a display. *)
Definition rooted (ins : list Input) : Prop :=
  Forall (fun i => i <> SceneChange []) ins.

End ComboBox.

(* ===================================================================== *)
(** * PushButtonModel: enabling, and the listener list *)
(* ===================================================================== *)

Module PushButtonMore.
Import PushButton.

(** Trace vocabulary: in the events seen so far the model was disabled
    and not enabled again since. *)
Definition disabledIn (pre : list Event) : Prop :=
  exists l1 l2, pre = l1 ++ setEnabled false :: l2 /\ setEnabled true ∉ l2.

(** The number of presses in a sequence of events. *)
Definition presses (evs : list Event) : nat :=
  length (filter (fun e => e = pointerDown) evs).

(** Listeners are functions compared by identity. *)
Abbreviation ListenerId := nat (only parsing).

(** [Array.prototype.indexOf]: the first position of [x], [None] for -1. *)
Fixpoint indexOf (x : ListenerId) (ls : list ListenerId) : option nat :=
  match ls with
  | [] => None
  | y :: ls' => if bool_decide (y = x) then Some 0 else S <$> indexOf x ls'
  end.

(** [this.listeners] right after construction: empty, or the listener
    given in the options. *)
Definition initialListeners (listener : option ListenerId) : list ListenerId :=
  match listener with
  | None => []
  | Some l => [l]
  end.

(** [addListener]: pushes the listener unless [indexOf] finds it. *)
Definition addListener (l : ListenerId) (ls : list ListenerId) : list ListenerId :=
  match indexOf l ls with
  | None => ls ++ [l]
  | Some _ => ls
  end.

(** [removeListener]: [splice( i, 1 )] at the position [indexOf] finds. *)
Definition removeListener (l : ListenerId) (ls : list ListenerId) : list ListenerId :=
  match indexOf l ls with
  | Some i => delete i ls
  | None => ls
  end.

(** A call of [addListener] or [removeListener]. *)
Inductive Op :=
| Add (l : ListenerId)
| Remove (l : ListenerId).

#[global] Instance Op_eq_dec : EqDecision Op.
Proof. solve_decision. Defined.

Definition applyOp (o : Op) (ls : list ListenerId) : list ListenerId :=
  match o with
  | Add l => addListener l ls
  | Remove l => removeListener l ls
  end.

Definition applyOps (ops : list Op) (ls : list ListenerId) : list ListenerId :=
  foldl (fun acc o => applyOp o acc) ls ops.

(** After the calls [ops] on a model constructed with [listener], the
    last call that names [l] is an [Add], or no call names [l] and [l]
    is the constructor's listener. *)
Definition lastAdded (listener : option ListenerId) (ops : list Op) (l : ListenerId) : Prop :=
  (exists o1 o2, ops = o1 ++ Add l :: o2 /\ Remove l ∉ o2) \/
  (listener = Some l /\ Remove l ∉ ops).

(** The listener list together with the record of the calls made by
    [fire]. What a listener does to the list while it runs is given by
    [body]: the calls of [addListener] and [removeListener] it makes. *)
Record Listeners := mkListeners {
  listeners : list ListenerId;
  called : list ListenerId
}.

Definition callListener (body : ListenerId -> list Op) (l : ListenerId)
    (m : Listeners) : Listeners :=
  {| listeners := applyOps (body l) (listeners m);
     called := called m ++ [l] |}.

(** [fire]: [var copy = this.listeners.slice( 0 )], then every listener of
    the copy is called. *)
Definition fireAll (body : ListenerId -> list Op) (m : Listeners) : Listeners :=
  let copy := listeners m in
  foldl (fun acc l => callListener body l acc) m copy.

End PushButtonMore.

(* ===================================================================== *)
(** * AquaRadioButton among other writers of its Property *)
(* ===================================================================== *)

Module AquaRadioButtonMore.
Import AquaRadioButton.

Section Writers.
Context {T : Type} `{EqDecision T}.

(** What can happen to the button and its Property: the button is
    activated, or somebody else (another button of the group, the
    simulation) sets the Property. *)
Inductive Input :=
| Activate (a : Activation)
| ExternalSet (v : T).

Definition step (value : T) (i : Input) (s : State T) : State T :=
  match i with
  | Activate a => activate value a s
  | ExternalSet v => property_set value v s
  end.

Definition run (value : T) (ins : list Input) (s : State T) : State T :=
  foldl (fun acc i => step value i acc) s ins.

(** The number of activations in a sequence of inputs. *)
Definition activations (ins : list Input) : nat :=
  length (filter (fun i => match i with Activate _ => true | _ => false end = true) ins).

(** The button shows what the Property holds. *)
Definition inSync (value : T) (s : State T) : Prop :=
  selectedVisible s = bool_decide (propertyValue s = value) /\
  deselectedVisible s = negb (selectedVisible s) /\
  pdomChecked s = selectedVisible s.

End Writers.

End AquaRadioButtonMore.

(* ===================================================================== *)
(** * AccessibleNumberSpinner: what the emitters and the log say *)
(* ===================================================================== *)

Module SpinnerMore.
Import Spinner.

(** The last value emitted by [incrementDownEmitter], [false] before the
    first emission. *)
Definition incrementDown (l : list Effect) : bool :=
  foldl (fun acc x => match x with IncrementDownEmit b => b | _ => acc end) false l.

(** The last value emitted by [decrementDownEmitter]. *)
Definition decrementDown (l : list Effect) : bool :=
  foldl (fun acc x => match x with DecrementDownEmit b => b | _ => acc end) false l.

(** The keys for which [_emitKeyState] emits on the increment emitter,
    and those for which it emits on the decrement emitter. *)
Definition isIncrementKey (e : KeyboardEvent) : bool :=
  isAnyKeyEvent e [KEY_UP_ARROW; KEY_RIGHT_ARROW].

Definition isDecrementKey (e : KeyboardEvent) : bool :=
  negb (isIncrementKey e) && isAnyKeyEvent e [KEY_DOWN_ARROW; KEY_LEFT_ARROW].

(** The emitters agree with the timer: while a repeat armed by [e] runs
    they say down for the direction of [e] and for no other, and they say
    up when no repeat runs. *)
Definition keyStateAgrees (s : State) : Prop :=
  if isRunning (timer s)
  then exists e, callbacks (timer s) = [e] /\
         runningTimerCallbackEvent s = Some e /\ downCallback s = Some e /\
         incrementDown (log s) = isIncrementKey e /\
         decrementDown (log s) = isDecrementKey e
  else callbacks (timer s) = [] /\
       incrementDown (log s) = false /\ decrementDown (log s) = false.

(** The event was pressed as a plain range key: it is a recognized range
    key, the meta key was not held, and the inputs hold its keydown. *)
Definition plainRangeKeydown (ins : list Input) (e : KeyboardEvent) : Prop :=
  isRangeKey e = true /\ metaKey e = false /\ Keydown e ∈ ins.

End SpinnerMore.

(* ===================================================================== *)
(** * ComboBox: disposal, and the listeners of others *)
(* ===================================================================== *)

Module ComboBoxMore.
Import ComboBox.

Section Instance.
Variable clickToDismissListener : nat.

(** [disposeComboBox], as far as the display is concerned: the dismiss
    listener is removed from the tracked display if it is registered
    there; the [display] field is left as it is. *)
Definition disposeComboBox (s : State) : result State :=
  match display s with
  | Some d =>
    if hasInputListener d clickToDismissListener (inputListeners s) then
      w ← removeInputListener d clickToDismissListener (inputListeners s);
      Ok (emit [DetachDismissListener d] (with_display (display s) w s))
    else Ok s
  | None => Ok s
  end.

(** The input listeners of display [d] that are not the dismiss listener
    of this combo box, in their order. *)
Definition othersOn (s : State) (d : nat) : list nat :=
  filter (fun x => x <> clickToDismissListener) (listenersOf (inputListeners s) d).

End Instance.

(** The displayOnly mode that the button was last told. *)
Definition buttonDisplayOnly (effs : list Effect) : option bool :=
  foldl (fun acc x => match x with ButtonSetDisplayOnly b => Some b | _ => acc end)
        None effs.

(** A world where display 0 already carries the listeners 3 and 4 of
    others, used in the examples. *)
Definition busyStart : State := init [0] (<[0 := [3; 4]]> ∅).

(** The busy world after one click on the button of the combo box whose
    dismiss listener is object 7. *)
Definition busyOpen : State :=
  {| visible := true; display := Some 0; displayOnly := false; pickable := true;
     rootedDisplays := [0]; inputListeners := <[0 := [3; 4; 7]]> (<[0 := [3; 4]]> ∅);
     effects := [ButtonSetDisplayOnly false; ScaleListBox; MoveToFront; MoveListBox;
                 AttachDismissListener 0; FocusListBox] |}.

End ComboBoxMore.

(* ===================================================================== *)
(** * ComboBoxButton (js/ComboBoxButton.ts) *)
(* ===================================================================== *)

Module ComboBoxButton.

Section Button.
Context {T : Type} `{EqDecision T}.

(** A ComboBoxItem as the button reads it: its value and its [a11yLabel]
    ([None] for null). Its node is identified by the position of the item
    in [items]. *)
Record Item := mkItem {
  value : T;
  a11yLabel : option string
}.

(** The button: the flag [_blockNextVoicingFocusListener], the number of
    calls of [defaultFocusListener] (the spoken focus responses), the
    visibility of the arrow and of the separator, the children of
    [itemNodeWrapper], and [innerContent]. *)
Record State := mkState {
  _blockNextVoicingFocusListener : bool;
  spoken : nat;
  arrowVisible : bool;
  vSeparatorVisible : bool;
  wrapperChildren : list nat;
  innerContent : option string
}.

(** [x || null] on a label: null and the empty string are falsy. *)
Definition orNull (x : option string) : option string :=
  match x with
  | Some EmptyString => None
  | other => other
  end.

(** [this.voicingFocusListener]: speaks unless blocked, then unblocks. *)
Definition voicingFocusListener (s : State) : State :=
  {| _blockNextVoicingFocusListener := false;
     spoken := if _blockNextVoicingFocusListener s then spoken s else S (spoken s);
     arrowVisible := arrowVisible s; vSeparatorVisible := vSeparatorVisible s;
     wrapperChildren := wrapperChildren s; innerContent := innerContent s |}.

(** [blockNextVoicingFocusListener] *)
Definition blockNextVoicingFocusListener (s : State) : State :=
  {| _blockNextVoicingFocusListener := true;
     spoken := spoken s;
     arrowVisible := arrowVisible s; vSeparatorVisible := vSeparatorVisible s;
     wrapperChildren := wrapperChildren s; innerContent := innerContent s |}.

(** [setDisplayOnly] *)
Definition setDisplayOnly (displayOnly : bool) (s : State) : State :=
  {| _blockNextVoicingFocusListener := _blockNextVoicingFocusListener s;
     spoken := spoken s;
     arrowVisible := negb displayOnly; vSeparatorVisible := negb displayOnly;
     wrapperChildren := wrapperChildren s; innerContent := innerContent s |}.

(** [propertyObserver]: the wrapper is emptied, the first item whose value
    is the new value is looked up ([_.find]), its node becomes the only
    child of the wrapper and its label the inner content. Without such an
    item the assertion fails. *)
Definition propertyObserver (items : list Item) (v : T) (s : State)
  : ComboBox.result State :=
  match list_find (fun it => value it = v) items with
  | Some (i, item) =>
    ComboBox.Ok
      {| _blockNextVoicingFocusListener := _blockNextVoicingFocusListener s;
         spoken := spoken s;
         arrowVisible := arrowVisible s; vSeparatorVisible := vSeparatorVisible s;
         wrapperChildren := [] ++ [i];
         innerContent := orNull (a11yLabel item) |}
  | None => ComboBox.Throws "Assertion failed: no item found for value"
  end.

(** What happens to the flag and the voice: the button gets focus, or the
    combo box asks to block the next response, or the mode changes. *)
Inductive Input :=
| Focus
| Block
| DisplayOnly (b : bool).

#[global] Instance Input_eq_dec : EqDecision Input.
Proof. solve_decision. Defined.

Definition step (i : Input) (s : State) : State :=
  match i with
  | Focus => voicingFocusListener s
  | Block => blockNextVoicingFocusListener s
  | DisplayOnly b => setDisplayOnly b s
  end.

Definition run (ins : list Input) (s : State) : State :=
  foldl (fun acc i => step i acc) s ins.

(** In the inputs so far a block was asked for and no focus came since. *)
Definition blockedIn (pre : list Input) : Prop :=
  exists l1 l2, pre = l1 ++ Block :: l2 /\ Focus ∉ l2.

End Button.

Arguments Item : clear implicits.

(** The button right after construction, before the Property is linked:
    nothing blocked, nothing spoken, arrow and separator visible. *)
Definition fresh : State :=
  {| _blockNextVoicingFocusListener := false; spoken := 0;
     arrowVisible := true; vSeparatorVisible := true;
     wrapperChildren := []; innerContent := None |}.

(** Three items, the second without a label and the third with an empty
    one, used in the examples. *)
Definition sampleItems : list (Item nat) :=
  [ {| value := 10; a11yLabel := Some "ten"%string |};
    {| value := 20; a11yLabel := None |};
    {| value := 30; a11yLabel := Some ""%string |} ].

End ComboBoxButton.

(* ===================================================================== *)
(** * The combo box with a popup list (unnamed/part_011) *)
(* ===================================================================== *)

Module LegacyComboBox.

(** Modelled from the spec: KeyboardUtil belongs to the scene-graph
    library and is not among the sources; its constants are the DOM key
    codes. *)
Definition KEY_TAB : nat := 9.
Definition KEY_ENTER : nat := 13.
Definition KEY_ESCAPE : nat := 27.
Definition KEY_SPACE : nat := 32.
Definition KEY_UP_ARROW : nat := 38.
Definition KEY_DOWN_ARROW : nat := 40.

(** Calls on collaborators, in order. A list item node is named by its
    position in [listNode.children]. *)
Inductive Effect :=
| MoveList
| MoveToFront
| UpdateActiveDescendant (i : nat)
| SetHighlightVisible (i : nat) (b : bool)
| AbortEvent
| ButtonFocus
| SetFocusable (i : nat) (b : bool)
| A11yFocusButton (i : nat).

Section Instance.
Context {T : Type} `{EqDecision T}.

(** The values of [items], in order; item [i] owns the list item node
    [listNode.children[i]]. *)
Variable items : list T.

(** [this.clickToDismissListener], an object of this combo box alone. *)
Variable clickToDismissListener : nat.

(** The combo box and what it reads of its surroundings: [visible] is
    [listNode.visible], [value] is [property.value], [rootedDisplays]
    what [getUniqueTrail().rootNode().getRootedDisplays()] returns at the
    moment, [inputListeners] the listener arrays of all displays. *)
Record State := mkState {
  visible : bool;
  enableClickToDismissListener : bool;
  display : option nat;
  rootedDisplays : list nat;
  inputListeners : gmap nat (list nat);
  focusedItem : option nat;
  fromA11yEnterKey : bool;
  value : T;
  effects : list Effect
}.

Definition emit (xs : list Effect) (s : State) : State :=
  {| visible := visible s;
     enableClickToDismissListener := enableClickToDismissListener s;
     display := display s; rootedDisplays := rootedDisplays s;
     inputListeners := inputListeners s; focusedItem := focusedItem s;
     fromA11yEnterKey := fromA11yEnterKey s; value := value s;
     effects := effects s ++ xs |}.

Definition with_value (v : T) (s : State) : State :=
  {| visible := visible s;
     enableClickToDismissListener := enableClickToDismissListener s;
     display := display s; rootedDisplays := rootedDisplays s;
     inputListeners := inputListeners s; focusedItem := focusedItem s;
     fromA11yEnterKey := fromA11yEnterKey s; value := v;
     effects := effects s |}.

Definition with_fromA11yEnterKey (b : bool) (s : State) : State :=
  {| visible := visible s;
     enableClickToDismissListener := enableClickToDismissListener s;
     display := display s; rootedDisplays := rootedDisplays s;
     inputListeners := inputListeners s; focusedItem := focusedItem s;
     fromA11yEnterKey := b; value := value s;
     effects := effects s |}.

Definition with_focusedItem (i : nat) (s : State) : State :=
  {| visible := visible s;
     enableClickToDismissListener := enableClickToDismissListener s;
     display := display s; rootedDisplays := rootedDisplays s;
     inputListeners := inputListeners s; focusedItem := Some i;
     fromA11yEnterKey := fromA11yEnterKey s; value := value s;
     effects := effects s |}.

Definition with_enable (b : bool) (s : State) : State :=
  {| visible := visible s;
     enableClickToDismissListener := b;
     display := display s; rootedDisplays := rootedDisplays s;
     inputListeners := inputListeners s; focusedItem := focusedItem s;
     fromA11yEnterKey := fromA11yEnterKey s; value := value s;
     effects := effects s |}.

(** A call of a listener either returns or throws; what it changed
    before throwing stays changed, so both carry the state. *)
Inductive Outcome :=
| Returns (s : State)
| ThrowsAfter (msg : string) (s : State).

Definition andThen (m : Outcome) (f : State -> Outcome) : Outcome :=
  match m with
  | Returns s => f s
  | ThrowsAfter msg s => ThrowsAfter msg s
  end.

(** [showList]: nothing when the list is visible already. Otherwise the
    list is placed and shown, the next down on the display is to be
    ignored, and the dismiss listener is added to the first rooted
    display (a TypeError when there is none). *)
Definition showList (s : State) : Outcome :=
  if visible s then Returns s
  else
    let s := emit [MoveList; MoveToFront] s in
    let shown (d : option nat) (w : gmap nat (list nat)) :=
      {| visible := true; enableClickToDismissListener := false;
         display := d; rootedDisplays := rootedDisplays s;
         inputListeners := w; focusedItem := focusedItem s;
         fromA11yEnterKey := fromA11yEnterKey s; value := value s;
         effects := effects s |} in
    match head (rootedDisplays s) with
    | None =>
      ThrowsAfter "TypeError: this.display is undefined" (shown None (inputListeners s))
    | Some d =>
      match ComboBox.addInputListener d clickToDismissListener (inputListeners s) with
      | ComboBox.Ok w => Returns (shown (Some d) w)
      | ComboBox.Throws msg => ThrowsAfter msg (shown (Some d) (inputListeners s))
      end
    end.

(** [hideList]: the dismiss listener is removed from the tracked display
    if it is there, the focused item stops being focusable, the list is
    hidden. The [display] field keeps its value. *)
Definition hideList (s : State) : Outcome :=
  let hidden (w : gmap nat (list nat)) :=
    {| visible := false;
       enableClickToDismissListener := enableClickToDismissListener s;
       display := display s; rootedDisplays := rootedDisplays s;
       inputListeners := w; focusedItem := focusedItem s;
       fromA11yEnterKey := fromA11yEnterKey s; value := value s;
       effects := effects s ++
         match focusedItem s with
         | Some i => [SetFocusable i false]
         | None => []
         end |} in
  match display s with
  | Some d =>
    if ComboBox.hasInputListener d clickToDismissListener (inputListeners s) then
      match ComboBox.removeInputListener d clickToDismissListener (inputListeners s) with
      | ComboBox.Ok w => Returns (hidden w)
      | ComboBox.Throws msg => ThrowsAfter msg s
      end
    else Returns (hidden (inputListeners s))
  | None => Returns (hidden (inputListeners s))
  end.

(** [this.buttonNode.focus()]: the constructor keeps the button in the
    field [button] and nothing assigns [buttonNode], so reading [focus]
    from it throws. *)
Definition buttonNode_focus (s : State) : Outcome :=
  ThrowsAfter "TypeError: this.buttonNode is undefined" s.

(** [this.button.focus()] *)
Definition button_focus (s : State) : Outcome :=
  Returns (emit [ButtonFocus] s).

(** [hideListFromClick], the [down] of the dismiss listener: the first
    down after the list was shown only arms the listener. *)
Definition hideListFromClick (s : State) : Outcome :=
  if enableClickToDismissListener s then hideList s
  else Returns (with_enable true s).

(** The listener of [firedEmitter], for the list item node [i] whose
    item has value [v]. *)
Definition firedListener (i : nat) (v : T) (s : State) : Outcome :=
  andThen (hideList (emit [UpdateActiveDescendant i] s)) (fun s =>
  Returns (with_value v (emit [SetHighlightVisible i false; AbortEvent] s))).

(** [a11yClickListener.keydown] of the list item node [i] whose item has
    value [v]. *)
Definition a11yClickListener_keydown (i : nat) (v : T) (keyCode : nat) (s : State)
  : Outcome :=
  if bool_decide (KEY_ENTER = keyCode) || bool_decide (KEY_SPACE = keyCode) then
    let s := with_fromA11yEnterKey (bool_decide (KEY_ENTER = keyCode)) s in
    let s := with_value v s in
    andThen (hideList s) (fun s =>
    andThen (buttonNode_focus s) (fun s =>
    Returns (emit [UpdateActiveDescendant i] s)))
  else Returns s.

(** [listNode.children[z]] for a possibly negative or too large index. *)
Definition child (z : Z) : option nat :=
  if bool_decide (0 <= z < Z.of_nat (length items))%Z then Some (Z.to_nat z) else None.

(** The loop of the arrow keys over the indices [todo] still to visit:
    at the focused item the neighbour in [direction], if there is one,
    gets the focus and the loop ends. *)
Fixpoint navigate (direction : Z) (todo : list nat) (s : State) : State :=
  match todo with
  | [] => s
  | i :: rest =>
    if bool_decide (focusedItem s = Some i) then
      match child (Z.of_nat i + direction) with
      | Some nextItem =>
        with_focusedItem nextItem
          (emit [UpdateActiveDescendant nextItem; SetFocusable i false;
                 A11yFocusButton nextItem] s)
      | None => navigate direction rest s
      end
    else navigate direction rest s
  end.

(** The [keydown] listener of the list. *)
Definition handleKeyDown (keyCode : nat) (s : State) : Outcome :=
  if bool_decide (keyCode = KEY_ESCAPE) then
    andThen (hideList s) buttonNode_focus
  else if bool_decide (keyCode = KEY_DOWN_ARROW) || bool_decide (keyCode = KEY_UP_ARROW) then
    let direction := if bool_decide (keyCode = KEY_DOWN_ARROW) then 1%Z else (-1)%Z in
    Returns (navigate direction (seq 0 (length items)) s)
  else if bool_decide (keyCode = KEY_TAB) then hideList s
  else Returns s.

(** One round of the loop that focuses the selected item: every list
    item node whose value is the value of the Property is focused in
    turn. *)
Definition focusStep (s : State) (i : nat) : State :=
  match items !! i with
  | Some v =>
    if bool_decide (value s = v)
    then emit [A11yFocusButton i] (with_focusedItem i s)
    else s
  | None => s
  end.

(** [button.a11yListener.click] *)
Definition a11yListener_click (s : State) : Outcome :=
  if visible s then andThen (hideList s) button_focus
  else if negb (fromA11yEnterKey s) then
    andThen (showList s) (fun s =>
    Returns (foldl focusStep s (seq 0 (length items))))
  else Returns (with_fromA11yEnterKey false s).

(** [button.a11yListener.keydown] *)
Definition a11yListener_keydown (keyCode : nat) (s : State) : Outcome :=
  if visible s then
    if bool_decide (keyCode = KEY_ESCAPE) then hideList s else Returns s
  else Returns s.

(** A pointer-down dispatched by display [d] reaches the input
    listeners registered on [d]. *)
Definition dispatchDown (d : nat) (s : State) : Outcome :=
  if ComboBox.hasInputListener d clickToDismissListener (inputListeners s)
  then hideListFromClick s
  else Returns s.

(** An event whose current target is the list item node [i]; an index
    beyond the list names no node, so no listener runs. *)
Definition onItem (i : nat) (f : T -> State -> Outcome) (s : State) : Outcome :=
  match items !! i with
  | Some v => f v s
  | None => Returns s
  end.

(** What can happen to the combo box: the calls of its listeners, a
    change of the scene, and a write to the Property from elsewhere. *)
Inductive Input :=
| ButtonDown
| DisplayDown (d : nat)
| ItemEnter (i : nat)
| ItemExit (i : nat)
| ItemDown (i : nat)
| ItemUp (i : nat)
| ItemKeydown (i : nat) (keyCode : nat)
| ListKeydown (keyCode : nat)
| ButtonClick
| ButtonKeydown (keyCode : nat)
| SceneChange (ds : list nat)
| SetValue (v : T).

Definition step (i : Input) (s : State) : Outcome :=
  match i with
  | ButtonDown => showList s
  | DisplayDown d => dispatchDown d s
  | ItemEnter i =>
    onItem i (fun _ s => Returns (emit [SetHighlightVisible i true] s)) s
  | ItemExit i =>
    onItem i (fun _ s => Returns (emit [SetHighlightVisible i false] s)) s
  | ItemDown i => onItem i (fun _ s => Returns (emit [AbortEvent] s)) s
  | ItemUp i => onItem i (firedListener i) s
  | ItemKeydown i keyCode =>
    onItem i (fun v => a11yClickListener_keydown i v keyCode) s
  | ListKeydown keyCode => handleKeyDown keyCode s
  | ButtonClick => a11yListener_click s
  | ButtonKeydown keyCode => a11yListener_keydown keyCode s
  | SceneChange ds =>
    Returns
      {| visible := visible s;
         enableClickToDismissListener := enableClickToDismissListener s;
         display := display s; rootedDisplays := ds;
         inputListeners := inputListeners s; focusedItem := focusedItem s;
         fromA11yEnterKey := fromA11yEnterKey s; value := value s;
         effects := effects s |}
  | SetValue v => Returns (with_value v s)
  end.

(** A sequence of inputs; it ends at the first call that throws. *)
Fixpoint run (ins : list Input) (s : State) : Outcome :=
  match ins with
  | [] => Returns s
  | i :: ins' => andThen (step i s) (run ins')
  end.

(** The combo box right after construction, in a scene rooted in the
    displays [ds] whose listeners are [w], on a Property holding [v]. *)
Definition init (ds : list nat) (w : gmap nat (list nat)) (v : T) : State :=
  {| visible := false; enableClickToDismissListener := false;
     display := None; rootedDisplays := ds; inputListeners := w;
     focusedItem := None; fromA11yEnterKey := false; value := v;
     effects := [] |}.

(** The dismiss listener is registered on display [d]. *)
Definition attachedTo (s : State) (d : nat) : Prop :=
  clickToDismissListener ∈ ComboBox.listenersOf (inputListeners s) d.

(** The list is visible exactly when the dismiss listener is attached,
    and then it is attached to the one display held in the [display]
    field; the focused item, if any, is a node of the list. *)
Definition consistent (s : State) : Prop :=
  (if visible s
   then exists d, display s = Some d /\ forall d', attachedTo s d' <-> d' = d
   else forall d', ~ attachedTo s d')
  /\ forall i, focusedItem s = Some i -> i < length items.

(** The input makes a listener read [this.buttonNode]: Escape on the
    list, Enter or Space on a list item. *)
Definition readsButtonNode (i : Input) : bool :=
  match i with
  | ListKeydown keyCode => bool_decide (keyCode = KEY_ESCAPE)
  | ItemKeydown i keyCode =>
    bool_decide (i < length items) &&
    (bool_decide (keyCode = KEY_ENTER) || bool_decide (keyCode = KEY_SPACE))
  | _ => false
  end.

(** Every scene of the sequence has a display, and no input of it makes
    a listener read [this.buttonNode]. *)
Definition safeInputs (ins : list Input) : Prop :=
  Forall (fun i => i <> SceneChange [] /\ readsButtonNode i = false) ins.

(** What the combo box keeps apart from the list's visibility, the
    listener registry and the collaborators' calls. *)
Definition sameSelection (s s' : State) : Prop :=
  value s' = value s /\ focusedItem s' = focusedItem s /\
  fromA11yEnterKey s' = fromA11yEnterKey s /\
  rootedDisplays s' = rootedDisplays s /\
  enableClickToDismissListener s' = enableClickToDismissListener s.

(** The combo box can get from its construction to state [s]: it was
    built in a scene with a display where its dismiss listener is not
    registered, and the inputs [ins], none of which takes the last
    display away or reads [this.buttonNode], led to [s]. *)
Definition reaches (ds : list nat) (w : gmap nat (list nat)) (v : T)
    (ins : list Input) (s : State) : Prop :=
  (forall d, clickToDismissListener ∉ ComboBox.listenersOf w d) /\
  ds <> [] /\ safeInputs ins /\
  run ins (init ds w v) = Returns s.

(** The state after the arrow key moved the focus from [i] to [j]. *)
Definition moved (i j : nat) (s : State) : State :=
  with_focusedItem j
    (emit [UpdateActiveDescendant j; SetFocusable i false; A11yFocusButton j] s).

End Instance.

(** A combo box over three numbers, with dismiss listener 7, in a scene
    with the single display 0, on a Property holding the first value. *)
Definition sampleItems : list nat := [10; 20; 30].

Definition sampleStart : State := init [0] (∅ : gmap nat (list nat)) 10.

End LegacyComboBox.

(* ===================================================================== *)
(** * DemosScreenView (unnamed/part_004) *)
(* ===================================================================== *)

Module DemosScreenView.

(** Demos are objects compared by identity; a demo's node is named
    after its demo. Calls on nodes and on [demosParent], in order. *)
Inductive Effect :=
| CreateNode (demo : nat)
| SetVisible (demo : nat) (b : bool)
| AddChild (demo : nat)
| RemoveChild (demo : nat)
| Dispose (demo : nat).

(** The view: the value of [selectedDemoProperty], the demos whose
    [node] field holds a node, and the children of [demosParent]. *)
Record State := mkState {
  selectedDemo : nat;
  node : gset nat;
  children : list nat;
  effects : list Effect
}.

Definition emit (xs : list Effect) (s : State) : State :=
  {| selectedDemo := selectedDemo s; node := node s;
     children := children s; effects := effects s ++ xs |}.

(** The listener linked to [selectedDemoProperty]. The node of the
    demo left is hidden when demos are cached, and otherwise removed,
    disposed and forgotten; the node of the demo entered is shown if it
    exists, and otherwise created and added. A demo left without a node
    makes the listener throw.

    Modelled from the spec: Node belongs to the scene-graph library and
    is not among the sources. [addChild] appends a child and
    [removeChild] takes it out of the children. *)
Definition selectedDemoListener (cacheDemos : bool) (demo : nat) (oldDemo : option nat)
    (s : State) : ComboBox.result State :=
  s ← match oldDemo with
      | Some old =>
        if bool_decide (old ∈ node s) then
          if cacheDemos then ComboBox.Ok (emit [SetVisible old false] s)
          else ComboBox.Ok
            {| selectedDemo := selectedDemo s;
               node := node s ∖ {[old]};
               children := filter (fun d => d <> old) (children s);
               effects := effects s ++ [RemoveChild old; Dispose old] |}
        else ComboBox.Throws "TypeError: oldDemoNode is null"
      | None => ComboBox.Ok s
      end;
  if bool_decide (demo ∈ node s) then ComboBox.Ok (emit [SetVisible demo true] s)
  else ComboBox.Ok
    {| selectedDemo := selectedDemo s;
       node := {[demo]} ∪ node s;
       children := children s ++ [demo];
       effects := effects s ++ [CreateNode demo; AddChild demo] |}.

(** [selectedDemoProperty.value = demo], as the combo box does it: the
    listener runs only when the value changes. *)
Definition select (cacheDemos : bool) (demo : nat) (s : State) : ComboBox.result State :=
  if bool_decide (selectedDemo s = demo) then ComboBox.Ok s
  else selectedDemoListener cacheDemos demo (Some (selectedDemo s))
    {| selectedDemo := demo; node := node s;
       children := children s; effects := effects s |}.

Fixpoint run (cacheDemos : bool) (demos : list nat) (s : State) : ComboBox.result State :=
  match demos with
  | [] => ComboBox.Ok s
  | d :: rest => s' ← select cacheDemos d s; run cacheDemos rest s'
  end.

(** What [options.cacheDemos] is once the constructor has looked at
    [Tandem.PHET_IO_ENABLED]. *)
Definition caching (phetio cacheDemos : bool) : bool :=
  if phetio then true else cacheDemos.

(** The constructor, for the demos [all], given without nodes, and the
    initial selection [selected]: under PhET-iO the nodes of all demos
    are created up front, invisible; then the listener is linked, which
    calls it for the initial selection. *)
Definition construct (phetio cacheDemos : bool) (all : list nat) (selected : nat)
  : ComboBox.result State :=
  selectedDemoListener (caching phetio cacheDemos) selected None
    (if phetio then
       {| selectedDemo := selected; node := list_to_set all; children := all;
          effects := all ≫= (fun d => [CreateNode d; SetVisible d false; AddChild d]) |}
     else
       {| selectedDemo := selected; node := ∅; children := []; effects := [] |}).

(** The demos whose node was created so far, in order. *)
Definition creations (s : State) : list nat :=
  omap (fun e => match e with CreateNode d => Some d | _ => None end) (effects s).

(** The demos whose node was disposed so far, in order. *)
Definition disposals (s : State) : list nat :=
  omap (fun e => match e with Dispose d => Some d | _ => None end) (effects s).

(** The nodes under [demosParent] are those of the demos that hold one,
    and the selected demo holds one. Without caching no other demo
    does. With caching no node was disposed, and every node that was
    created is still held and was created once. *)
Definition tidy (cacheDemos : bool) (s : State) : Prop :=
  selectedDemo s ∈ node s /\
  (forall d, d ∈ children s <-> d ∈ node s) /\
  NoDup (children s) /\
  if cacheDemos
  then disposals s = [] /\ NoDup (creations s) /\
       forall d, d ∈ creations s <-> d ∈ node s
  else node s = {[selectedDemo s]}.

End DemosScreenView.

(* ===================================================================== *)
(** * Properties of PushButtonModel *)
(* ===================================================================== *)

Module PushButtonFacts.
Import PushButton.

#[local] Arguments Nat.eqb : simpl never.

Lemma pressedIn_nil : ~ pressedIn [].
Proof. intros (l1 & l2 & H & _). by destruct l1. Qed.

Lemma overIn_nil : ~ overIn [].
Proof. intros (l1 & l2 & H & _). by destruct l1. Qed.

(** Decomposing a list that ends in [e] around an occurrence of [x]. *)
Lemma snoc_split (x e : Event) (pre l1 l2 : list Event) :
  pre ++ [e] = l1 ++ x :: l2 ->
  (l2 = [] /\ pre = l1 /\ e = x) \/
  (exists l2', l2 = l2' ++ [e] /\ pre = l1 ++ x :: l2').
Proof.
  intros H. destruct l2 as [|y l2 _] using rev_ind.
  - left. apply app_inj_tail in H. naive_solver.
  - right. exists l2.
    change (l1 ++ x :: l2 ++ [y]) with (l1 ++ (x :: l2) ++ [y]) in H.
    rewrite app_assoc in H. apply app_inj_tail in H as [-> ->]. done.
Qed.

Lemma pressedIn_snoc pre e :
  pressedIn (pre ++ [e]) <-> e = pointerDown \/ (e <> pointerUp /\ pressedIn pre).
Proof.
  split.
  - intros (l1 & l2 & H & Hno).
    apply snoc_split in H as [(-> & -> & ->)|(l2' & -> & ->)]; [by left|].
    right. split.
    + intros ->. apply Hno. set_solver.
    + exists l1, l2'. split; [done|]. set_solver.
  - intros [->|[Hne (l1 & l2 & -> & Hno)]].
    + exists pre, []. split; [done|]. set_solver.
    + exists l1, (l2 ++ [e]). split; [by rewrite <- app_assoc|]. set_solver.
Qed.

Lemma overIn_snoc pre e :
  overIn (pre ++ [e]) <-> e = pointerEnter \/ (e <> pointerExit /\ overIn pre).
Proof.
  split.
  - intros (l1 & l2 & H & Hno).
    apply snoc_split in H as [(-> & -> & ->)|(l2' & -> & ->)]; [by left|].
    right. split.
    + intros ->. apply Hno. set_solver.
    + exists l1, l2'. split; [done|]. set_solver.
  - intros [->|[Hne (l1 & l2 & -> & Hno)]].
    + exists pre, []. split; [done|]. set_solver.
    + exists l1, (l2 ++ [e]). split; [by rewrite <- app_assoc|]. set_solver.
Qed.

Lemma push_run_snoc fod pre e m : run fod (pre ++ [e]) m = step fod e (run fod pre m).
Proof. unfold run. by rewrite foldl_app. Qed.

(** The flags after a run are exactly what the trace says. *)
Lemma run_flags fod pre :
  staysEnabled pre ->
  enabled (run fod pre init) = true /\
  (down (run fod pre init) = true <-> pressedIn pre) /\
  (over (run fod pre init) = true <-> overIn pre).
Proof.
  induction pre as [|e pre IH] using rev_ind; intros Hen.
  - cbn. split; [done|]. split; split; try done.
    + intros H. by apply pressedIn_nil in H.
    + intros H. by apply overIn_nil in H.
  - apply Forall_app in Hen as [Hpre He]. rewrite Forall_singleton in He.
    destruct (IH Hpre) as (IHe & IHd & IHo). clear IH.
    rewrite push_run_snoc, pressedIn_snoc, overIn_snoc, <- IHd, <- IHo.
    destruct (run fod pre init) as [o d en n]; simpl in *; subst en.
    clear IHd IHo Hpre.
    destruct e as [| | | |[|]]; try done;
      unfold set_down, onDownTrue, onDownFalse; simpl;
      destruct fod, o, d; simpl; intuition congruence.
Qed.



(** Concrete runs: press and release inside fires once; dragging off
    before the release does not fire; with [fireOnDown] the press fires. *)
Example click_inside_fires :
  fireCount (run false [pointerEnter; pointerDown; pointerUp] init) = 1.
Proof. reflexivity. Qed.

Example drag_off_does_not_fire :
  fireCount (run false [pointerEnter; pointerDown; pointerExit; pointerUp] init) = 0.
Proof. reflexivity. Qed.

Example fire_on_down_fires_at_press :
  fireCount (run true [pointerEnter; pointerDown] init) = 1 /\
  fireCount (run true [pointerEnter; pointerDown; pointerUp] init) = 1.
Proof. split; reflexivity. Qed.

(** C2, as the specification words it, fails: pressed down while the
    pointer is outside, the specification says pressed and the model
    says idle. *)
Lemma interactionState_spec_counterexample :
  interactionState false true true <> spec_interactionState false true true
  /\ spec_interactionState false true true = "pressed"%string
  /\ interactionState false true true = "idle"%string.
Proof. repeat split; try reflexivity. discriminate. Qed.

(** C2, amended. The derived state is disabled when not enabled, otherwise
    over when over and not down, otherwise pressed when over and down,
    otherwise idle: it is the specification's precedence order except
    when the model is enabled and down with the pointer outside, where
    the state is idle. *)
Theorem interactionState_precedence over down enabled :
  interactionState over down enabled =
  if enabled && down && negb over then "idle"%string
  else spec_interactionState over down enabled.
Proof. by destruct over, down, enabled. Qed.

End PushButtonFacts.

(* ===================================================================== *)
(** * Properties of the radio-button interaction state *)
(* ===================================================================== *)

Module RadioButtonFacts.
Import RadioButton.

Section Facts.
Context {T : Type} `{EqDecision T}.
Implicit Types (m : Member T) (group : list (Member T)) (pv : T).

(** Where the source and the specification's wording agree. *)
Lemma derivation_agrees_with_spec (v : T) f o lo lp pv :
  o = lo -> derivation v f o lo lp pv = spec_derivation v f o lo lp pv.
Proof. by intros ->. Qed.

(** A member reports SELECTED exactly when it is the selected one and
    it is not being pressed. *)
Lemma stateOf_SELECTED pv m :
  stateOf pv m = SELECTED <-> isSelected pv m = true /\ isPressed m = false.
Proof.
  unfold stateOf, derivation, isSelected, isPressed.
  destruct m as [v f o lo lp]; simpl.
  destruct (bool_decide (pv = v)), f, o, lo, lp; simpl; intuition congruence.
Qed.

Lemma stateOf_selected_member pv m :
  isSelected pv m = true ->
  stateOf pv m = if isPressed m then PRESSED else SELECTED.
Proof.
  unfold stateOf, derivation, isSelected, isPressed.
  destruct m as [v f o lo lp]; simpl. intros ->.
  by destruct f, o, lo, lp.
Qed.

(** With pairwise distinct declared values, the members whose value is
    in the cell are at most one, and exactly one when the cell holds a
    declared value. *)
Lemma selected_members group pv :
  NoDup (declared group) ->
  ((pv ∉ declared group) /\ filter (fun m => isSelected pv m = true) group = []) \/
  (exists m, m ∈ group /\ filter (fun m => isSelected pv m = true) group = [m]).
Proof.
  unfold declared. induction group as [|m group IH]; intros Hnd.
  - left. split; [set_solver|done].
  - rewrite fmap_cons in Hnd. apply NoDup_cons in Hnd as [Hm Hnd].
    rewrite filter_cons.
    destruct (IH Hnd) as [[Hnot Hnil]|(m' & Hin & Hone)];
      destruct (decide (pv = value m)) as [Hv|Hv].
    + right. exists m. rewrite Hnil.
      rewrite decide_True by (by apply bool_decide_eq_true). set_solver.
    + left. rewrite decide_False
        by (by rewrite not_true_iff_false; apply bool_decide_eq_false).
      set_solver.
    + exfalso. apply Hm. subst pv.
      assert (Hsel : m' ∈ filter (fun m0 => isSelected (value m) m0 = true) group)
        by (rewrite Hone; set_solver).
      apply list_elem_of_filter in Hsel as [Hsel _].
      unfold isSelected in Hsel. apply bool_decide_eq_true in Hsel.
      rewrite Hsel. by apply list_elem_of_fmap_2.
    + right. exists m'. rewrite decide_False
        by (by rewrite not_true_iff_false; apply bool_decide_eq_false).
      set_solver.
Qed.

Lemma reporting_SELECTED group pv :
  reporting SELECTED pv group =
  filter (fun m => isPressed m = false)
         (filter (fun m => isSelected pv m = true) group).
Proof.
  unfold reporting. rewrite list_filter_filter.
  apply list_filter_iff. intros m. rewrite stateOf_SELECTED. tauto.
Qed.

(** C5, amended. The state is OVER when looksOver and neither
    looksPressed nor selected; otherwise PRESSED when (over or focused)
    and looksPressed; otherwise SELECTED when selected; otherwise
    DESELECTED, where selected means that the value cell equals the
    button's value. It is the specification's derivation whenever over
    and looksOver agree, or looksPressed or selected holds. *)
Theorem radio_state_derivation (v : T) f o lo lp pv :
  let selected := bool_decide (pv = v) in
  derivation v f o lo lp pv =
    (if lo && negb (lp || selected) then OVER
     else if (o || f) && lp then PRESSED
     else if selected then SELECTED
     else DESELECTED)
  /\ derivation v f o lo lp pv =
    (if bool_decide (o = lo) || lp || selected
     then spec_derivation v f o lo lp pv
     else if lo then OVER else DESELECTED).
Proof.
  unfold derivation, spec_derivation. simpl. split; [done|].
  destruct (bool_decide (pv = v)), f, o, lo, lp; done.
Qed.

(** C6, amended. In a group with pairwise distinct declared values that
    shares one value cell, at most one member reports SELECTED; when
    the cell holds a declared value exactly one member is the selected
    one, and it is the only member that can report SELECTED: it reports
    SELECTED unless it is being pressed, in which case it reports
    PRESSED and no member reports SELECTED. *)
Theorem radio_group_selected group pv :
  NoDup (declared group) ->
  length (reporting SELECTED pv group) <= 1 /\
  (pv ∈ declared group ->
   exists m, m ∈ group /\ value m = pv /\
     filter (fun m => isSelected pv m = true) group = [m] /\
     stateOf pv m = (if isPressed m then PRESSED else SELECTED) /\
     reporting SELECTED pv group = (if isPressed m then [] else [m])).
Proof.
  intros Hnd. rewrite reporting_SELECTED.
  destruct (selected_members group pv Hnd) as [[Hnot Hnil]|(m & Hin & Hone)].
  - rewrite Hnil. split; [simpl; lia|]. intros Hd. by destruct Hnot.
  - rewrite Hone. assert (Hsel : isSelected pv m = true).
    { assert (Hm : m ∈ filter (fun m => isSelected pv m = true) group)
        by (rewrite Hone; set_solver).
      by apply list_elem_of_filter in Hm as [Hm _]. }
    split.
    + rewrite filter_cons, filter_nil. case_decide; simpl; lia.
    + intros _. exists m. split; [done|]. split.
      { unfold isSelected in Hsel. by apply bool_decide_eq_true in Hsel. }
      split; [done|]. split; [by apply stateOf_selected_member|].
      rewrite filter_cons, filter_nil. destruct (isPressed m); by case_decide.
Qed.

End Facts.

(** C5, as the specification words it, fails: with the pointer over a
    button that does not look over (and is neither pressed nor selected)
    the specification says OVER and the source says DESELECTED. *)
Lemma radio_state_spec_counterexample :
  derivation 0 false true false false 1 = DESELECTED /\
  spec_derivation 0 false true false false 1 = OVER.
Proof. split; reflexivity. Qed.

(** C6, as stated, fails: the cell holds the declared value 0 while the
    button of value 0 is pressed again, and no member reports SELECTED. *)
Lemma radio_group_counterexample :
  NoDup (declared pressed_pair) /\ 0 ∈ declared pressed_pair /\
  reporting SELECTED 0 pressed_pair = [] /\
  stateOf 0 <$> pressed_pair = [PRESSED; DESELECTED].
Proof.
  repeat split; try reflexivity.
  - by apply (bool_decide_unpack _).
  - by apply (bool_decide_unpack _).
Qed.

Lemma radio_group_selected_witness :
  length (reporting SELECTED 0 pressed_pair) <= 1 /\
  (0 ∈ declared pressed_pair ->
   exists m, m ∈ pressed_pair /\ value m = 0 /\
     filter (fun m => isSelected 0 m = true) pressed_pair = [m] /\
     stateOf 0 m = (if isPressed m then PRESSED else SELECTED) /\
     reporting SELECTED 0 pressed_pair = (if isPressed m then [] else [m])).
Proof.
  apply (radio_group_selected pressed_pair 0).
  by apply (bool_decide_unpack _).
Defined.

End RadioButtonFacts.

(* ===================================================================== *)
(** * Properties of AquaRadioButton *)
(* ===================================================================== *)

Module AquaRadioButtonFacts.
Import AquaRadioButton.

Section Facts.
Context {T : Type} `{EqDecision T}.
Implicit Types (s : State T) (value : T).

Lemma property_set_value value v s : propertyValue (property_set value v s) = v.
Proof. unfold property_set. by case_bool_decide. Qed.

Lemma property_set_same value s :
  propertyValue s = value -> property_set value value s = s.
Proof. intros Hv. unfold property_set. by rewrite bool_decide_eq_true_2. Qed.

Lemma fire_selected value s :
  propertyValue s = value -> fire value s = play s.
Proof. intros Hv. unfold fire. by rewrite property_set_same. Qed.

(** C10. Every activation, by pointer or by keyboard, leaves the
    Property at the button's value and plays the sound once, whatever
    the Property held before. On a button that is already selected the
    activation only plays the sound: the Property keeps its value and
    notifies nobody. A second activation right after a first one only
    plays the sound again, so two activations act on the Property as
    one. *)
Theorem activation_sets_value_and_plays value (a a' : Activation) s :
  propertyValue (activate value a s) = value
  /\ soundPlays (activate value a s) = S (soundPlays s)
  /\ (propertyValue s = value -> activate value a s = play s)
  /\ activate value a' (activate value a s) = play (activate value a s).
Proof.
  assert (Hfire : forall s0, propertyValue (fire value s0) = value)
    by (intros s0; unfold fire; simpl; apply property_set_value).
  repeat split.
  - destruct a; apply Hfire.
  - destruct a; unfold activate, fire, property_set; simpl;
      by case_bool_decide.
  - intros Hv. destruct a; by apply fire_selected.
  - destruct a, a'; simpl; apply fire_selected, Hfire.
Qed.

End Facts.

Example first_activation_selects :
  fire 2 sample =
  {| propertyValue := 2; selectedVisible := true; deselectedVisible := false;
     pdomChecked := true; notifications := 2; soundPlays := 1 |}.
Proof. reflexivity. Qed.

Example second_activation_only_plays :
  fire 2 (fire 2 sample) =
  {| propertyValue := 2; selectedVisible := true; deselectedVisible := false;
     pdomChecked := true; notifications := 2; soundPlays := 2 |}.
Proof. reflexivity. Qed.

Lemma activation_sets_value_and_plays_witness :
  activate 2 keyboardChange (fire 2 sample) = play (fire 2 sample).
Proof.
  apply (activation_sets_value_and_plays 2 keyboardChange pointerFire (fire 2 sample)).
  reflexivity.
Defined.

End AquaRadioButtonFacts.

(* ===================================================================== *)
(** * Properties of the AccessibleNumberSpinner keyboard repeat *)
(* ===================================================================== *)

Module SpinnerFacts.
Import Spinner.

(** Quotient and remainder one millisecond later. *)
Lemma succ_div_mod (m i : nat) :
  0 < i ->
  (m mod i = i - 1 /\ (m + 1) / i = m / i + 1 /\ (m + 1) mod i = 0) \/
  (m mod i < i - 1 /\ (m + 1) / i = m / i /\ (m + 1) mod i = m mod i + 1).
Proof.
  intros Hi.
  pose proof (Nat.div_mod_eq m i) as Hm.
  pose proof (Nat.mod_upper_bound m i ltac:(lia)) as Hr.
  destruct (decide (m mod i = i - 1)) as [Heq|Hne].
  - left. split; [done|].
    assert (Hd : (m + 1) / i = m / i + 1)
      by (symmetry; apply (Nat.div_unique _ _ _ 0); nia).
    split; [done|].
    symmetry. apply (Nat.mod_unique _ _ (m / i + 1)); nia.
  - right. split; [lia|].
    split; symmetry.
    + apply (Nat.div_unique _ _ _ (m mod i + 1)); nia.
    + apply (Nat.mod_unique _ _ (m / i)); nia.
Qed.

Lemma replicate_snoc {A} (x : A) n : replicate n x ++ [x] = replicate (S n) x.
Proof. induction n as [|n IH]; [done|]. simpl. by rewrite IH. Qed.

Lemma spinner_run_snoc ins i s : run (ins ++ [i]) s = step i (run ins s).
Proof. unfold run. by rewrite foldl_app. Qed.

Lemma run_app ins1 ins2 s : run (ins1 ++ ins2) s = run ins2 (run ins1 s).
Proof. unfold run. by rewrite foldl_app. Qed.

Lemma actions_app l1 l2 : actions (l1 ++ l2) = actions l1 ++ actions l2.
Proof. unfold actions. apply omap_app. Qed.

Lemma ticksIn_snoc ins i :
  ticksIn (ins ++ [i]) = ticksIn ins + (if decide (i = Tick) then 1 else 0).
Proof.
  unfold ticksIn. rewrite filter_app, length_app, filter_cons, filter_nil.
  by case_decide.
Qed.

(** [_emitKeyState] touches the log only, and adds no action to it. *)
Lemma emitKeyState_fields e b s :
  enabled (_emitKeyState e b s) = enabled s /\
  timer (_emitKeyState e b s) = timer s /\
  downCallback (_emitKeyState e b s) = downCallback s /\
  runningTimerCallbackEvent (_emitKeyState e b s) = runningTimerCallbackEvent s /\
  actions (log (_emitKeyState e b s)) = actions (log s).
Proof.
  unfold _emitKeyState.
  repeat case_match; simpl; rewrite ?actions_app, ?app_nil_r; done.
Qed.

(** The bound handler performs exactly one action and touches the log only. *)
Lemma handleKeyDown_fields e s :
  enabled (_accessibleNumberSpinnerHandleKeyDown e s) = enabled s /\
  timer (_accessibleNumberSpinnerHandleKeyDown e s) = timer s /\
  downCallback (_accessibleNumberSpinnerHandleKeyDown e s) = downCallback s /\
  runningTimerCallbackEvent (_accessibleNumberSpinnerHandleKeyDown e s)
    = runningTimerCallbackEvent s /\
  actions (log (_accessibleNumberSpinnerHandleKeyDown e s)) = actions (log s) ++ [e].
Proof.
  unfold _accessibleNumberSpinnerHandleKeyDown.
  destruct (emitKeyState_fields e true (emit (HandleKeyDown e) s))
    as (-> & -> & -> & -> & ->).
  simpl. by rewrite actions_app.
Qed.

Lemma phaseAfter_running d i n : phaseAfter d i n <> Stopped.
Proof. unfold phaseAfter. by case_match. Qed.

Lemma Armed_running o e base n s : Armed o e base n s -> isRunning (timer s) = true.
Proof.
  intros [Ht _ _ _]. unfold isRunning. rewrite Ht. simpl.
  pose proof (phaseAfter_running (timerDelay o) (timerInterval o) n).
  by destruct (phaseAfter _ _ _).
Qed.

(** The timer phase and the number of repeats one millisecond later. *)
Lemma phase_step d i n :
  0 < d -> 0 < i ->
  match phaseAfter d i n with
  | Stopped => False
  | Delaying r =>
    if r <=? 1
    then phaseAfter d i (n + 1) = Repeating i /\
         repeats d i (n + 1) = repeats d i n + 1
    else phaseAfter d i (n + 1) = Delaying (r - 1) /\
         repeats d i (n + 1) = repeats d i n
  | Repeating r =>
    if r <=? 1
    then phaseAfter d i (n + 1) = Repeating i /\
         repeats d i (n + 1) = repeats d i n + 1
    else phaseAfter d i (n + 1) = Repeating (r - 1) /\
         repeats d i (n + 1) = repeats d i n
  end.
Proof.
  intros Hd Hi. unfold phaseAfter, repeats.
  destruct (Nat.ltb_spec n d) as [Hlt|Hge].
  - destruct (Nat.leb_spec (d - n) 1) as [Hlast|Hmore];
      destruct (Nat.ltb_spec (n + 1) d) as [?|?]; try lia.
    + replace (n + 1 - d) with 0 by lia.
      rewrite Nat.Div0.mod_0_l, Nat.Div0.div_0_l. split; [f_equal|]; lia.
    + split; [f_equal|]; lia.
  - destruct (Nat.ltb_spec (n + 1) d) as [?|_]; [lia|].
    replace (n + 1 - d) with ((n - d) + 1) by lia.
    destruct (succ_div_mod (n - d) i Hi) as [(Hm & Hq & Hr)|(Hm & Hq & Hr)];
      rewrite Hq, Hr.
    + destruct (Nat.leb_spec (i - (n - d) mod i) 1) as [_|?]; [|lia].
      split; [f_equal|]; lia.
    + destruct (Nat.leb_spec (i - (n - d) mod i) 1) as [?|_]; [lia|].
      split; [f_equal|]; lia.
Qed.

(** Calling the callbacks of a timer armed by [e] performs one action. *)
Lemma fireCallbacks_armed d i e p s :
  timer s = {| delay := d; interval := i; callbacks := [e]; phase := p |} ->
  timer (fireCallbacks s) = timer s /\
  downCallback (fireCallbacks s) = downCallback s /\
  runningTimerCallbackEvent (fireCallbacks s) = runningTimerCallbackEvent s /\
  actions (log (fireCallbacks s)) = actions (log s) ++ [e].
Proof.
  intros Ht. unfold fireCallbacks. rewrite Ht. simpl.
  destruct (handleKeyDown_fields e s) as (_ & H1 & H2 & H3 & H4).
  by rewrite H1, H2, H3, H4, Ht.
Qed.

(** One millisecond on an armed timer. *)
Lemma tick_armed o e base n s :
  0 < timerDelay o -> 0 < timerInterval o ->
  Armed o e base n s -> Armed o e base (n + 1) (tick s).
Proof.
  intros Hd Hi [Ht Hdown Hev Hact].
  pose proof (phase_step _ _ n Hd Hi) as Hstep.
  unfold tick. rewrite Ht. simpl.
  assert (Hfired : forall q,
    phaseAfter (timerDelay o) (timerInterval o) (n + 1) = q ->
    repeats (timerDelay o) (timerInterval o) (n + 1)
      = repeats (timerDelay o) (timerInterval o) n + 1 ->
    Armed o e base (n + 1) (fireCallbacks (with_phase q s))).
  { intros q Hq Hrep.
    destruct (fireCallbacks_armed (timerDelay o) (timerInterval o) e q
                (with_phase q s)) as (H1 & H2 & H3 & H4).
    { unfold with_phase. simpl. by rewrite Ht. }
    split.
    - rewrite H1. unfold with_phase. simpl. rewrite Ht. simpl. by rewrite Hq.
    - by rewrite H2.
    - by rewrite H3.
    - rewrite H4. unfold with_phase, with_timer. cbn [log].
      rewrite Hact, Hrep, <- app_assoc, replicate_snoc. do 2 f_equal. lia. }
  assert (Hquiet : forall q,
    phaseAfter (timerDelay o) (timerInterval o) (n + 1) = q ->
    repeats (timerDelay o) (timerInterval o) (n + 1)
      = repeats (timerDelay o) (timerInterval o) n ->
    Armed o e base (n + 1) (with_phase q s)).
  { intros q Hq Hrep. split; simpl; try done.
    - rewrite Ht. simpl. by rewrite Hq.
    - by rewrite Hact, Hrep. }
  destruct (phaseAfter (timerDelay o) (timerInterval o) n) as [|r|r];
    [done| |]; destruct (r <=? 1); destruct Hstep as [Hp Hr]; auto.
Qed.

Lemma removeCallback_stop cb t : isRunning (removeCallback cb (stop t)) = false.
Proof. by destruct cb. Qed.

Lemma remove_first_singleton e : remove_first e [e] = [].
Proof. simpl. by rewrite bool_decide_eq_true_2. Qed.

Lemma fireCallbacks_fields s :
  enabled (fireCallbacks s) = enabled s /\
  timer (fireCallbacks s) = timer s /\
  downCallback (fireCallbacks s) = downCallback s /\
  runningTimerCallbackEvent (fireCallbacks s) = runningTimerCallbackEvent s.
Proof.
  unfold fireCallbacks. generalize (callbacks (timer s)) as cbs.
  intros cbs. revert s. induction cbs as [|cb cbs IH]; intros s; [done|].
  simpl. destruct (IH (_accessibleNumberSpinnerHandleKeyDown cb s))
    as (-> & -> & -> & ->).
  by destruct (handleKeyDown_fields cb s) as (-> & -> & -> & -> & _).
Qed.

Lemma init_wellFormed o : wellFormed o (init o).
Proof. by repeat split. Qed.

Lemma step_wellFormed o i s : wellFormed o s -> wellFormed o (step i s).
Proof.
  intros Hwf. pose proof Hwf as (Hd & Hi & Hp).
  destruct i as [e|e| | |b]; simpl.
  - unfold keydown.
    destruct (enabled s); [|exact Hwf].
    destruct (isRangeKey e); [|exact Hwf].
    destruct (metaKey e); simpl; [exact Hwf|].
    destruct (isRunning (timer s)) eqn:Hrun; simpl; [exact Hwf|].
    destruct (handleKeyDown_fields e (emit PreventDefault s))
      as (_ & Ht & _ & _ & _).
    unfold isRunning in Hrun.
    destruct (phase (timer s)) eqn:Hph; [|done..].
    unfold wellFormed, start, isRunning, addCallback; simpl. rewrite Ht; simpl.
    rewrite Hph, Hp; simpl. repeat split; try done.
    by exists e.
  - unfold keyup.
    destruct (isRangeKey e); [|exact Hwf].
    destruct (runningTimerCallbackEvent s) as [r|] eqn:Hr; [|exact Hwf].
    case_bool_decide; [|exact Hwf].
    destruct (emitKeyState_fields e false s) as (_ & Ht & Hdc & _ & _).
    unfold wellFormed; simpl. rewrite Hdc, Ht.
    destruct (downCallback s) as [cb|] eqn:Hcb; simpl; repeat split; try done.
    + destruct (phase (timer s)).
      * by rewrite Hp.
      * destruct Hp as (e0 & -> & He0 & _). simplify_eq. apply remove_first_singleton.
      * destruct Hp as (e0 & -> & He0 & _). simplify_eq. apply remove_first_singleton.
    + by destruct (phase (timer s)); [|destruct Hp as (e0 & _ & He0 & _)..].
  - unfold blur. destruct (downCallback s) as [cb|] eqn:Hcb; simpl; [|exact Hwf].
    assert (Ht : timer (match runningTimerCallbackEvent s with
                        | Some running => _emitKeyState running false s
                        | None => s end) = timer s).
    { destruct (runningTimerCallbackEvent s) as [k|]; [|done].
      by destruct (emitKeyState_fields k false s) as (_ & -> & _). }
    unfold wellFormed; simpl. rewrite Ht. repeat split; try done.
    destruct (phase (timer s)).
    + by rewrite Hp.
    + destruct Hp as (e0 & -> & He0 & _). simplify_eq. apply remove_first_singleton.
    + destruct Hp as (e0 & -> & He0 & _). simplify_eq. apply remove_first_singleton.
  - unfold tick.
    destruct (phase (timer s)) as [|r|r] eqn:Hph; [exact Hwf| |];
      destruct (r <=? 1); unfold wellFormed.
    all: try (destruct (fireCallbacks_fields
                (with_phase (Repeating (interval (timer s))) s))
              as (_ & -> & -> & ->)).
    all: by repeat split.
  - exact Hwf.
Qed.

Lemma run_wellFormed o ins : wellFormed o (run ins (init o)).
Proof.
  induction ins as [|i ins IH] using rev_ind; [apply init_wellFormed|].
  rewrite spinner_run_snoc. by apply step_wellFormed.
Qed.

Lemma repeats_0 d i : 0 < d -> repeats d i 0 = 0.
Proof. intros Hd. unfold repeats. by destruct (Nat.ltb_spec 0 d); [|lia]. Qed.

(** A plain keydown of a range key on an enabled spinner at rest performs
    one action and arms the timer. *)
Lemma keydown_arms o e s :
  0 < timerDelay o ->
  wellFormed o s -> enabled s = true -> isRangeKey e = true ->
  metaKey e = false -> isRunning (timer s) = false ->
  Armed o e (actions (log s)) 0 (keydown e s).
Proof.
  intros Hpos (Hd & Hi & Hp) Hen Hrange Hmeta Hrun.
  unfold keydown. rewrite Hen, Hrange, Hmeta. simpl. rewrite Hrun. simpl.
  destruct (handleKeyDown_fields e (emit PreventDefault s))
    as (_ & Ht & _ & _ & Hact).
  unfold isRunning in Hrun. destruct (phase (timer s)) eqn:Hph; [|done..].
  split; simpl.
  - rewrite Ht. simpl. unfold start, isRunning, addCallback. simpl.
    rewrite Hph, Hp, Hd, Hi. simpl.
    unfold phaseAfter. destruct (Nat.ltb_spec 0 (timerDelay o)); [|lia].
    do 2 f_equal. lia.
  - done.
  - done.
  - rewrite Hact. simpl. rewrite actions_app, app_nil_r.
    by rewrite repeats_0.
Qed.

(** While the key is held, nothing but time changes an armed timer. *)
Lemma step_armed o e base n i s :
  0 < timerDelay o -> 0 < timerInterval o ->
  holds e [i] ->
  Armed o e base n s ->
  Armed o e base (n + (if decide (i = Tick) then 1 else 0)) (step i s).
Proof.
  intros Hd Hi Hh Ha. apply Forall_singleton in Hh as [Hnb Hku].
  pose proof (Armed_running _ _ _ _ _ Ha) as Hrun.
  destruct i as [e'|e'| | |b]; simpl; rewrite ?Nat.add_0_r.
  - unfold keydown.
    change (isRunning (timer (emit PreventDefault s))) with (isRunning (timer s)).
    rewrite Hrun. destruct Ha as [Ht Hdown Hev Hact].
    destruct (enabled s), (isRangeKey e'), (metaKey e'); simpl;
      split; simpl; try done.
    all: by rewrite actions_app, app_nil_r.
  - specialize (Hku e' eq_refl). unfold keyup.
    destruct Ha as [Ht Hdown Hev Hact]. rewrite Hev.
    rewrite bool_decide_eq_false_2 by done.
    destruct (isRangeKey e'); split; simpl; try done.
    by rewrite actions_app, app_nil_r.
  - done.
  - by apply tick_armed.
  - by destruct Ha.
Qed.

Lemma run_armed o e base mid : forall n s,
  0 < timerDelay o -> 0 < timerInterval o ->
  holds e mid ->
  Armed o e base n s -> Armed o e base (n + ticksIn mid) (run mid s).
Proof.
  induction mid as [|i mid IH] using rev_ind; intros n s Hd Hi Hh Ha.
  - by rewrite Nat.add_0_r.
  - apply Forall_app in Hh as [Hmid Hlast].
    rewrite spinner_run_snoc, ticksIn_snoc, Nat.add_assoc.
    apply step_armed; auto.
Qed.

Lemma isRangeKey_code e e' :
  getEventCode e' = getEventCode e -> isRangeKey e' = isRangeKey e.
Proof. unfold isRangeKey, isAnyKeyEvent, getEventCode. by intros ->. Qed.

(** Releasing the key that armed the timer stops it. *)
Lemma keyup_same_stops o e base n s e' :
  Armed o e base n s -> isRangeKey e = true ->
  getEventCode e' = getEventCode e ->
  isRunning (timer (keyup e' s)) = false.
Proof.
  intros [Ht Hdown Hev Hact] Hrange Hcode. unfold keyup.
  rewrite (isRangeKey_code _ _ Hcode), Hrange, Hev.
  rewrite bool_decide_eq_true_2 by done. simpl.
  apply removeCallback_stop.
Qed.

(** Losing focus stops the timer. *)
Lemma blur_stops o e base n s :
  Armed o e base n s -> isRunning (timer (blur s)) = false.
Proof. intros [Ht Hdown Hev Hact]. unfold blur. by rewrite Hdown. Qed.

(** Releasing another key leaves the timer as it is. *)
Lemma keyup_other_keeps o e base n s e' :
  Armed o e base n s ->
  getEventCode e' <> getEventCode e ->
  timer (keyup e' s) = timer s.
Proof.
  intros [Ht Hdown Hev Hact] Hcode. unfold keyup. rewrite Hev.
  rewrite bool_decide_eq_false_2 by done. by destruct (isRangeKey e').
Qed.

(** C4, as stated, fails on two guards of the keydown listener: with
    the meta key held, or on a disabled spinner, a keydown of a range key
    while no timer runs performs no action and starts no timer. *)
Lemma keyboard_repeat_counterexample :
  (enabled (init defaultOptions) = true /\
   isRangeKey metaArrowUp = true /\
   isRunning (timer (init defaultOptions)) = false /\
   actions (log (keydown metaArrowUp (init defaultOptions))) = [] /\
   isRunning (timer (keydown metaArrowUp (init defaultOptions))) = false)
  /\
  (isRangeKey arrowUp = true /\
   isRunning (timer disabledSpinner) = false /\
   keydown arrowUp disabledSpinner = disabledSpinner).
Proof. repeat split; reflexivity. Qed.

(** C4, amended. On an enabled spinner and without the meta key held, a
    keydown of a recognized range key while no timer runs performs one
    immediate action and starts the timer. While the key is held (no blur
    and no keyup of that key, whatever else happens) the timer keeps
    running and the actions performed are the immediate one, none during
    the first timerDelay milliseconds, one at timerDelay and one every
    timerInterval milliseconds after that; the defaults are 400 and 100.
    A keyup of the same key stops the timer, so does a blur, and a keyup
    of another key leaves the timer untouched. *)
Theorem keyboard_repeat o pre e mid :
  0 < timerDelay o -> 0 < timerInterval o ->
  enabled (run pre (init o)) = true ->
  isRangeKey e = true -> metaKey e = false ->
  isRunning (timer (run pre (init o))) = false ->
  holds e mid ->
  let s := run pre (init o) in
  let s1 := keydown e s in
  let s2 := run mid s1 in
  actions (log s1) = actions (log s) ++ [e]
  /\ isRunning (timer s1) = true
  /\ actions (log s2) =
       actions (log s) ++ [e] ++
       replicate (repeats (timerDelay o) (timerInterval o) (ticksIn mid)) e
  /\ isRunning (timer s2) = true
  /\ (forall e', getEventCode e' = getEventCode e ->
                 isRunning (timer (keyup e' s2)) = false)
  /\ isRunning (timer (blur s2)) = false
  /\ (forall e', getEventCode e' <> getEventCode e ->
                 timer (keyup e' s2) = timer s2)
  /\ timerDelay defaultOptions = 400 /\ timerInterval defaultOptions = 100.
Proof.
  intros Hd Hi Hen Hrange Hmeta Hrun Hh s s1 s2.
  pose proof (keydown_arms o e s Hd (run_wellFormed o pre) Hen Hrange Hmeta Hrun)
    as Ha1. fold s1 in Ha1.
  pose proof (run_armed o e _ mid 0 s1 Hd Hi Hh Ha1) as Ha2.
  simpl in Ha2. fold s2 in Ha2.
  split; [|split; [|split; [|split; [|split; [|split; [|split]]]]]].
  - rewrite (armed_actions _ _ _ _ _ Ha1). by rewrite repeats_0.
  - by eapply Armed_running.
  - by rewrite (armed_actions _ _ _ _ _ Ha2).
  - by eapply Armed_running.
  - intros e' He'. by eapply keyup_same_stops.
  - by eapply blur_stops.
  - intros e' He'. by eapply keyup_other_keeps.
  - done.
Qed.

(** Holding the up arrow with the default options: the sequence below
    lets three milliseconds pass and releases another key in between. *)
Lemma keyboard_repeat_witness :
  let s := run [] (init defaultOptions) in
  let s1 := keydown arrowUp s in
  let s2 := run [Tick; Keyup pageDown; Tick; Keydown arrowUp; Tick] s1 in
  actions (log s1) = actions (log s) ++ [arrowUp]
  /\ isRunning (timer s1) = true
  /\ actions (log s2) =
       actions (log s) ++ [arrowUp] ++
       replicate (repeats (timerDelay defaultOptions) (timerInterval defaultOptions)
                    (ticksIn [Tick; Keyup pageDown; Tick; Keydown arrowUp; Tick]))
                 arrowUp
  /\ isRunning (timer s2) = true
  /\ (forall e', getEventCode e' = getEventCode arrowUp ->
                 isRunning (timer (keyup e' s2)) = false)
  /\ isRunning (timer (blur s2)) = false
  /\ (forall e', getEventCode e' <> getEventCode arrowUp ->
                 timer (keyup e' s2) = timer s2)
  /\ timerDelay defaultOptions = 400 /\ timerInterval defaultOptions = 100.
Proof.
  apply (keyboard_repeat defaultOptions [] arrowUp
           [Tick; Keyup pageDown; Tick; Keydown arrowUp; Tick]);
    try reflexivity; try (simpl; lia).
  repeat constructor; try discriminate; intros e' [= <-]; discriminate.
Defined.

(** With a delay of 3 and an interval of 2 milliseconds: one action at
    the keydown, then at 3, 5 and 7 milliseconds. *)
Example repeat_schedule :
  let o := {| timerDelay := 3; timerInterval := 2 |} in
  map (fun n => length (actions (log (run (Keydown arrowUp :: replicate n Tick) (init o)))))
      [0; 1; 2; 3; 4; 5; 6; 7]
  = [1; 1; 1; 2; 2; 3; 3; 4].
Proof. reflexivity. Qed.

(** C9, as stated, fails on a disabled spinner: the keydown listener
    returns before it reaches preventDefault. *)
Lemma meta_keydown_counterexample :
  isRangeKey metaArrowUp = true /\ metaKey metaArrowUp = true /\
  keydown metaArrowUp disabledSpinner = disabledSpinner /\
  preventDefaults (log (keydown metaArrowUp disabledSpinner)) = 0.
Proof. repeat split; reflexivity. Qed.

(** C9, amended. On an enabled spinner, a keydown of a recognized range
    key with the meta key held calls preventDefault once and does nothing
    else: no action is performed, and the timer and the variables of the
    listener stay as they were, so no repeat is armed. *)
Theorem meta_keydown_only_prevents_default e s :
  enabled s = true -> isRangeKey e = true -> metaKey e = true ->
  keydown e s = emit PreventDefault s
  /\ log (keydown e s) = log s ++ [PreventDefault]
  /\ preventDefaults (log (keydown e s)) = S (preventDefaults (log s))
  /\ actions (log (keydown e s)) = actions (log s)
  /\ timer (keydown e s) = timer s
  /\ downCallback (keydown e s) = downCallback s
  /\ runningTimerCallbackEvent (keydown e s) = runningTimerCallbackEvent s.
Proof.
  intros Hen Hrange Hmeta.
  assert (Hk : keydown e s = emit PreventDefault s)
    by (unfold keydown; by rewrite Hen, Hrange, Hmeta).
  rewrite Hk. simpl. repeat split.
  - unfold preventDefaults. rewrite filter_app, length_app. simpl. lia.
  - by rewrite actions_app, app_nil_r.
Qed.

Lemma meta_keydown_only_prevents_default_witness :
  keydown metaArrowUp (init defaultOptions) = emit PreventDefault (init defaultOptions)
  /\ log (keydown metaArrowUp (init defaultOptions))
     = log (init defaultOptions) ++ [PreventDefault]
  /\ preventDefaults (log (keydown metaArrowUp (init defaultOptions)))
     = S (preventDefaults (log (init defaultOptions)))
  /\ actions (log (keydown metaArrowUp (init defaultOptions)))
     = actions (log (init defaultOptions))
  /\ timer (keydown metaArrowUp (init defaultOptions)) = timer (init defaultOptions)
  /\ downCallback (keydown metaArrowUp (init defaultOptions))
     = downCallback (init defaultOptions)
  /\ runningTimerCallbackEvent (keydown metaArrowUp (init defaultOptions))
     = runningTimerCallbackEvent (init defaultOptions).
Proof.
  apply (meta_keydown_only_prevents_default metaArrowUp (init defaultOptions));
    reflexivity.
Defined.

End SpinnerFacts.

(* ===================================================================== *)
(** * Properties of the ComboBox open/close/dismiss machinery *)
(* ===================================================================== *)

Module ComboBoxFacts.
Import ComboBox.

Section Facts.
Variable l : nat.
Implicit Types (s : State) (w : gmap nat (list nat)) (d : nat).

Lemma listenersOf_insert w d d' (ls : list nat) :
  listenersOf (<[d := ls]> w) d' = if decide (d = d') then ls else listenersOf w d'.
Proof.
  unfold listenersOf. rewrite lookup_insert.
  by destruct (decide (d = d')).
Qed.

Lemma bind_Ok {A B} (f : A -> result B) (m : result A) (b : B) :
  m ≫= f = Ok b -> exists a, m = Ok a /\ f a = Ok b.
Proof. destruct m as [a|msg]; [|done]. intros Hf. by exists a. Qed.

(** Opening from a consistent hidden state: it throws only for want of
    a rooted display, and otherwise attaches the listener to the first
    rooted display. *)
Lemma show_consistent s :
  consistent l s -> visible s = false ->
  match head (rootedDisplays s) with
  | None => exists msg, set_visible l true s = Throws msg
  | Some d =>
    exists s', set_visible l true s = Ok s' /\ consistent l s' /\
      visible s' = true /\ display s' = Some d /\
      rootedDisplays s' = rootedDisplays s /\
      effects s' = effects s ++ [ScaleListBox; MoveToFront; MoveListBox;
                                 AttachDismissListener d]
  end.
Proof.
  unfold consistent. intros Hc Hv. rewrite Hv in Hc. destruct Hc as [Hd Hno].
  unfold set_visible. rewrite Hv. simpl. unfold visibleListener. simpl.
  rewrite Hd. destruct (head (rootedDisplays s)) as [d|]; [|by eexists].
  unfold addInputListener, hasInputListener.
  rewrite bool_decide_eq_false_2 by apply Hno. simpl.
  eexists. split; [done|]. simpl. repeat split; try done.
  - exists d. split; [done|]. intros d'. unfold attachedTo. simpl.
    rewrite listenersOf_insert. destruct (decide (d = d')) as [->|Hne].
    + split; [done|]. intros _. set_solver.
    + split; [by intros ?%Hno|]. by intros ->.
  - by rewrite <- app_assoc.
Qed.

(** Hiding from a consistent visible state always returns, detaches the
    listener and clears the display field. *)
Lemma hide_consistent s :
  consistent l s -> visible s = true ->
  exists s' d, set_visible l false s = Ok s' /\ consistent l s' /\
    visible s' = false /\ display s = Some d /\
    rootedDisplays s' = rootedDisplays s /\
    effects s' = effects s ++ [DetachDismissListener d].
Proof.
  unfold consistent. intros Hc Hv. rewrite Hv in Hc.
  destruct Hc as (d & Hd & Hat).
  unfold set_visible. rewrite Hv. simpl. unfold visibleListener. simpl.
  rewrite Hd. unfold removeInputListener, hasInputListener.
  assert (Hin : l ∈ listenersOf (inputListeners s) d) by by apply Hat.
  rewrite bool_decide_eq_true_2 by done. simpl.
  eexists. exists d. split; [done|]. simpl. repeat split; try done.
  intros d'. unfold attachedTo. simpl.
  rewrite listenersOf_insert. destruct (decide (d = d')) as [->|Hne].
  - rewrite list_elem_of_filter. naive_solver.
  - intros Hd'. apply Hat in Hd'. by subst.
Qed.

(** Hiding what is hidden does nothing at all. *)
Lemma hide_hidden s : visible s = false -> hideListBox l s = Ok s.
Proof.
  intros Hv. unfold hideListBox, set_visible.
  by rewrite bool_decide_eq_true_2.
Qed.

(** The hidden branch of the visibility listener does nothing when no
    display is tracked, whoever calls it. *)
Lemma hidden_branch_without_display s :
  display s = None -> visibleListener l false s = Ok s.
Proof. intros Hd. unfold visibleListener. by rewrite Hd. Qed.

(** [hideListBox] from any consistent state returns a consistent hidden
    state in the same scene. *)
Lemma hideListBox_consistent s :
  consistent l s ->
  exists s', hideListBox l s = Ok s' /\ consistent l s' /\ visible s' = false /\
    rootedDisplays s' = rootedDisplays s.
Proof.
  intros Hc. destruct (visible s) eqn:Hv.
  - destruct (hide_consistent s Hc Hv) as (s' & d & H1 & H2 & H3 & _ & H4 & _).
    by exists s'.
  - exists s. by rewrite hide_hidden.
Qed.

Lemma emit_consistent xs s : consistent l (emit xs s) <-> consistent l s.
Proof. done. Qed.

(** Every step that returns keeps the invariant. *)
Lemma step_consistent i s s' :
  consistent l s -> step l i s = Ok s' -> consistent l s'.
Proof.
  intros Hc Hstep.
  assert (Hhide : forall s1, hideListBox l s = Ok s1 -> consistent l s1).
  { intros s1 H1. destruct (hideListBox_consistent s Hc) as (s2 & H2 & Hc2 & _).
    rewrite H2 in H1. by injection H1 as <-. }
  assert (Hshow : forall s1, showListBox l s = Ok s1 -> consistent l s1).
  { intros s1 H1. unfold showListBox in H1. destruct (visible s) eqn:Hv.
    - unfold set_visible in H1. rewrite Hv in H1. simpl in H1.
      by injection H1 as <-.
    - pose proof (show_consistent s Hc Hv) as Hs.
      destruct (head (rootedDisplays s)).
      + destruct Hs as (s2 & H2 & Hc2 & _). rewrite H2 in H1.
        by injection H1 as <-.
      + destruct Hs as (msg & Hmsg). by rewrite Hmsg in H1. }
  destruct i as [| | | |d fz event|focus|b|ds]; simpl in Hstep.
  - unfold buttonListener in Hstep.
    apply bind_Ok in Hstep as (s1 & Hset & Hret).
    assert (consistent l s1) as Hc1
      by (destruct (visible s); [by apply Hhide|by apply Hshow]).
    injection Hret as <-. by destruct (visible s1).
  - by apply Hshow.
  - by apply Hhide.
  - by apply Hhide.
  - unfold dispatchDown, clickToDismissListener_down in Hstep.
    destruct (hasInputListener _ _ _); [|by injection Hstep as <-].
    destruct (_ || _); [|by injection Hstep as <-].
    destruct (negb _); [by apply Hhide|by injection Hstep as <-].
  - unfold dismissWithFocusListener in Hstep.
    destruct focus as [c|]; [|by injection Hstep as <-].
    destruct (negb c); [by apply Hhide|by injection Hstep as <-].
  - unfold set_displayOnly in Hstep.
    case_bool_decide; [by injection Hstep as <-|].
    unfold displayOnlyListener in Hstep.
    apply bind_Ok in Hstep as (s1 & Hset & Hret).
    set (s0 := {| visible := visible s; display := display s; displayOnly := b;
                  pickable := pickable s; rootedDisplays := rootedDisplays s;
                  inputListeners := inputListeners s; effects := effects s |}) in *.
    assert (Hc0 : consistent l s0) by exact Hc.
    destruct (hideListBox_consistent s0 Hc0) as (s2 & H2 & Hc2 & _).
    rewrite H2 in Hset. injection Hset as <-. by injection Hret as <-.
  - by injection Hstep as <-.
Qed.

Lemma run_consistent ins : forall s s',
  consistent l s -> run l ins s = Ok s' -> consistent l s'.
Proof.
  induction ins as [|i ins IH]; intros s s' Hc Hrun; simpl in Hrun.
  - by injection Hrun as <-.
  - apply bind_Ok in Hrun as (s1 & Hstep & Hrun).
    eapply IH; [|done]. by eapply step_consistent.
Qed.

Lemma init_consistent ds w :
  (forall d, l ∉ listenersOf w d) -> consistent l (init ds w).
Proof. intros Hfresh. by split. Qed.

(** With a display under the combo box at all times, nothing throws. *)
Lemma step_returns i s :
  consistent l s -> rootedDisplays s <> [] -> i <> SceneChange [] ->
  exists s', step l i s = Ok s' /\ rootedDisplays s' <> [].
Proof.
  intros Hc Hr Hi.
  assert (Hhide : exists s', hideListBox l s = Ok s' /\ rootedDisplays s' <> []).
  { destruct (hideListBox_consistent s Hc) as (s' & H1 & _ & _ & H2).
    exists s'. by rewrite H2. }
  assert (Hshow : exists s', showListBox l s = Ok s' /\ rootedDisplays s' <> []).
  { unfold showListBox. destruct (visible s) eqn:Hv.
    - exists s. unfold set_visible. by rewrite Hv.
    - pose proof (show_consistent s Hc Hv) as Hs.
      destruct (rootedDisplays s) as [|d ds] eqn:Hds; [done|]. simpl in Hs.
      destruct Hs as (s' & H1 & _ & _ & _ & H2 & _).
      exists s'. by rewrite H2. }
  destruct i as [| | | |d fz event|focus|b|ds]; simpl; auto.
  - unfold buttonListener.
    assert (exists s1, set_visible l (negb (visible s)) s = Ok s1 /\
                       rootedDisplays s1 <> []) as (s1 & -> & Hr1)
      by (by destruct (visible s)).
    simpl. eexists. split; [done|]. by destruct (visible s1).
  - unfold dispatchDown, clickToDismissListener_down.
    destruct (hasInputListener _ _ _); [|by exists s].
    destruct (_ || _); [|by exists s].
    destruct (negb _); [done|by exists s].
  - unfold dismissWithFocusListener.
    destruct focus as [c|]; [|by exists s].
    destruct (negb c); [done|by exists s].
  - unfold set_displayOnly. case_bool_decide; [by exists s|].
    unfold displayOnlyListener.
    set (s0 := {| visible := visible s; display := display s; displayOnly := b;
                  pickable := pickable s; rootedDisplays := rootedDisplays s;
                  inputListeners := inputListeners s; effects := effects s |}).
    assert (Hc0 : consistent l s0) by exact Hc.
    destruct (hideListBox_consistent s0 Hc0) as (s2 & -> & _ & _ & H2).
    simpl. eexists. split; [done|]. simpl. by rewrite H2.
  - exists (sceneChange ds s). split; [done|]. simpl. by intros ->.
Qed.

Lemma run_returns ins : forall s,
  consistent l s -> rootedDisplays s <> [] -> rooted ins ->
  exists s', run l ins s = Ok s'.
Proof.
  induction ins as [|i ins IH]; intros s Hc Hr Hins; simpl.
  - by exists s.
  - apply Forall_cons in Hins as [Hi Hins].
    destruct (step_returns i s Hc Hr Hi) as (s1 & Hs1 & Hr1).
    rewrite Hs1. simpl. apply IH; [|done..]. by eapply step_consistent.
Qed.


(** C7, amended. While the list box is open, a pointer-down that
    reaches the dismiss listener with a trail containing neither the
    button nor the list box closes the list box, detaches the listener
    and clears the display field, provided fuzz testing is off or the
    random draw is below 0.005; a pointer-down whose trail contains
    the button or the list box leaves the combo box as it is. *)
Theorem outside_down_dismisses ds w ins s d fz event :
  (forall d, l ∉ listenersOf w d) ->
  run l ins (init ds w) = Ok s ->
  visible s = true ->
  attachedTo l s d ->
  (trailContainsButton event || trailContainsListBox event = false ->
   negb (isFuzzEnabled fz) || belowThreshold (nextDouble fz) = true ->
   exists s', dispatchDown l d fz event s = Ok s' /\
     visible s' = false /\ display s' = None /\
     (forall d', ~ attachedTo l s' d') /\
     effects s' = effects s ++ [DetachDismissListener d])
  /\ (trailContainsButton event || trailContainsListBox event = true ->
      dispatchDown l d fz event s = Ok s).
Proof.
  intros Hfresh Hrun Hv Hat.
  pose proof (run_consistent ins _ _ (init_consistent ds w Hfresh) Hrun) as Hc.
  unfold dispatchDown, clickToDismissListener_down, hasInputListener.
  rewrite bool_decide_eq_true_2 by exact Hat.
  split.
  - intros -> ->. simpl.
    destruct (hide_consistent s Hc Hv) as (s' & d0 & H1 & Hc' & Hv' & Hd0 & _ & He).
    exists s'. split; [done|]. split; [done|].
    unfold consistent in Hc'. rewrite Hv' in Hc'. destruct Hc' as [Hd' Hno].
    repeat split; try done.
    unfold consistent in Hc. rewrite Hv in Hc. destruct Hc as (d1 & Hd1 & Hat1).
    apply Hat1 in Hat. by simplify_eq.
  - intros ->. simpl. by destruct (_ || _).
Qed.

(** C8. On a combo box whose list box is hidden, [hideListBox] returns
    the state it was given, so calling it twice in a row changes
    nothing: no field changes and no detach of the dismiss listener is
    attempted. *)
Theorem hideListBox_hidden_noop s :
  visible s = false ->
  hideListBox l s = Ok s
  /\ (hideListBox l s ≫= hideListBox l) = Ok s
  /\ (forall s', hideListBox l s ≫= hideListBox l = Ok s' ->
                 detaches s' = detaches s).
Proof.
  intros Hv. rewrite (hide_hidden s Hv). simpl. rewrite (hide_hidden s Hv).
  repeat split. intros s' Hs'. by injection Hs' as <-.
Qed.

End Facts.

(** The sample surroundings register the listener nowhere, and one click
    on the button opens the sample combo box. *)
Lemma sample_fresh : forall d : nat, 7 ∉ listenersOf ∅ d.
Proof. intros d. unfold listenersOf. rewrite lookup_empty. simpl. set_solver. Qed.

Lemma sample_opens : run 7 [ButtonFire] sampleStart = Ok sampleOpen.
Proof. reflexivity. Qed.

Lemma sample_attached : attachedTo 7 sampleOpen 0.
Proof. unfold attachedTo, listenersOf. simpl. rewrite lookup_insert_eq. set_solver. Qed.


(** C7, as stated, fails under fuzz testing: with fuzzing on and a draw
    of one half, a pointer-down outside both the button and the list box
    reaches the dismiss listener of the open sample combo box and leaves
    it open, with the listener still attached. *)
Lemma outside_down_counterexample :
  run 7 [ButtonFire] sampleStart = Ok sampleOpen /\
  visible sampleOpen = true /\ attachedTo 7 sampleOpen 0 /\
  trailContainsButton outside || trailContainsListBox outside = false /\
  dispatchDown 7 0 fuzzing outside sampleOpen = Ok sampleOpen.
Proof.
  split; [reflexivity|]. split; [reflexivity|]. split; [exact sample_attached|].
  split; reflexivity.
Qed.

Lemma outside_down_dismisses_witness :
  (trailContainsButton outside || trailContainsListBox outside = false ->
   negb (isFuzzEnabled notFuzzing) || belowThreshold (nextDouble notFuzzing) = true ->
   exists s', dispatchDown 7 0 notFuzzing outside sampleOpen = Ok s' /\
     visible s' = false /\ display s' = None /\
     (forall d', ~ attachedTo 7 s' d') /\
     effects s' = effects sampleOpen ++ [DetachDismissListener 0])
  /\ (trailContainsButton outside || trailContainsListBox outside = true ->
      dispatchDown 7 0 notFuzzing outside sampleOpen = Ok sampleOpen).
Proof.
  apply (outside_down_dismisses 7 [0] ∅ [ButtonFire] sampleOpen 0 notFuzzing outside).
  - exact sample_fresh.
  - reflexivity.
  - reflexivity.
  - exact sample_attached.
Defined.

(** Opening, then an outside click without fuzzing, then two more calls
    of [hideListBox]: one detach in all. *)
Example open_dismiss_hide_hide :
  (run 7 [ButtonFire; PointerDown 0 notFuzzing outside; HideListBox; HideListBox]
       sampleStart) ≫= (fun s => Ok (visible s, display s, detaches s))
  = Ok (false, None, 1).
Proof. reflexivity. Qed.

(** Opening without a display under the combo box throws. *)
Example open_without_display :
  run 7 [ButtonFire] (init [] ∅) = Throws "TypeError: this.display is undefined".
Proof. reflexivity. Qed.

Lemma hideListBox_hidden_noop_witness :
  hideListBox 7 sampleStart = Ok sampleStart
  /\ (hideListBox 7 sampleStart ≫= hideListBox 7) = Ok sampleStart
  /\ (forall s', hideListBox 7 sampleStart ≫= hideListBox 7 = Ok s' ->
                 detaches s' = detaches sampleStart).
Proof. apply (hideListBox_hidden_noop 7 sampleStart). reflexivity. Defined.

End ComboBoxFacts.

(* ===================================================================== *)
(** * More properties of PushButtonModel *)
(* ===================================================================== *)

Module PushButtonMoreFacts.
Import PushButton PushButtonMore.

#[local] Arguments Nat.eqb : simpl never.

Lemma disabledIn_nil : ~ disabledIn [].
Proof. intros (l1 & l2 & H & _). by destruct l1. Qed.

Lemma disabledIn_snoc pre e :
  disabledIn (pre ++ [e]) <->
  e = setEnabled false \/ (e <> setEnabled true /\ disabledIn pre).
Proof.
  split.
  - intros (l1 & l2 & H & Hno).
    apply PushButtonFacts.snoc_split in H as [(-> & -> & ->)|(l2' & -> & ->)];
      [by left|].
    right. split.
    + intros ->. apply Hno. set_solver.
    + exists l1, l2'. split; [done|]. set_solver.
  - intros [->|[Hne (l1 & l2 & -> & Hno)]].
    + exists pre, []. split; [done|]. set_solver.
    + exists l1, (l2 ++ [e]). split; [by rewrite <- app_assoc|]. set_solver.
Qed.

(** The three flags after any run, read off the trace. *)
Lemma run_flags_any fod pre :
  (enabled (run fod pre init) = false <-> disabledIn pre) /\
  (down (run fod pre init) = true <-> pressedIn pre) /\
  (over (run fod pre init) = true <-> overIn pre).
Proof.
  induction pre as [|e pre IH] using rev_ind.
  - cbn. repeat split; try done.
    + intros H. by apply disabledIn_nil in H.
    + intros H. by apply PushButtonFacts.pressedIn_nil in H.
    + intros H. by apply PushButtonFacts.overIn_nil in H.
  - destruct IH as (IHe & IHd & IHo).
    rewrite PushButtonFacts.push_run_snoc, disabledIn_snoc,
      PushButtonFacts.pressedIn_snoc, PushButtonFacts.overIn_snoc,
      <- IHe, <- IHd, <- IHo.
    destruct (run fod pre init) as [o d en n]; simpl in *.
    clear IHe IHd IHo.
    destruct e as [| | | |[|]];
      unfold set_down, onDownTrue, onDownFalse; simpl;
      destruct fod, o, d, en; simpl; intuition congruence.
Qed.

(** For every sequence of events, disabling and enabling included: the
    model fires at an event exactly when it is enabled at that moment and
    the event is the release of a held press with the pointer over
    ([fireOnDown = false]) or a fresh press ([fireOnDown = true]). Only
    the enabled flag at the firing event counts: a model disabled during
    a press and enabled again before the release still fires. *)
Theorem fires_iff_enabled_at_the_event fireOnDown pre e :
  fired fireOnDown e (run fireOnDown pre init) = true <->
  ~ disabledIn pre /\
  if fireOnDown
  then e = pointerDown /\ ~ pressedIn pre
  else e = pointerUp /\ pressedIn pre /\ overIn pre.
Proof.
  destruct (run_flags_any fireOnDown pre) as (He & Hd & Ho).
  unfold fired.
  destruct fireOnDown; rewrite <- ?He, <- ?Hd, <- ?Ho;
    destruct (run _ pre init) as [o d en n]; simpl in *;
    clear He Hd Ho.
  all: assert (Hn : forall k : nat, Nat.eqb (S k) k = false)
    by (intros k; apply Nat.eqb_neq; lia).
  all: destruct e as [| | | |[|]]; simpl;
    unfold set_down, onDownTrue, onDownFalse; simpl;
    destruct o, d, en; simpl;
    rewrite ?Nat.eqb_refl, ?Hn; simpl; intuition congruence.
Qed.

Lemma presses_snoc evs e :
  presses (evs ++ [e]) = presses evs + (if decide (e = pointerDown) then 1 else 0).
Proof.
  unfold presses. rewrite filter_app, length_app, filter_cons, filter_nil.
  by case_decide.
Qed.

(** The model never fires more often than it was pressed, whatever the
    events and whichever the policy. *)
Theorem fires_at_most_once_per_press fireOnDown evs :
  fireCount (run fireOnDown evs init) <= presses evs.
Proof.
  cut (fireCount (run fireOnDown evs init)
       + (if negb fireOnDown && down (run fireOnDown evs init) then 1 else 0)
       <= presses evs); [lia|].
  induction evs as [|e evs IH] using rev_ind; [by destruct fireOnDown|].
  rewrite PushButtonFacts.push_run_snoc, presses_snoc.
  destruct (run fireOnDown evs init) as [o d en n]; simpl in *.
  destruct e as [| | | |b]; simpl;
    unfold set_down, onDownTrue, onDownFalse; simpl;
    destruct fireOnDown, o, d, en; simpl in *; lia.
Qed.

(** [indexOf] and membership. *)
Lemma indexOf_None x ls : indexOf x ls = None <-> x ∉ ls.
Proof.
  induction ls as [|y ls IH]; simpl; [set_solver|].
  case_bool_decide; subst.
  - split; [done|]. set_solver.
  - destruct (indexOf x ls); simpl.
    + split; [done|]. intros Hn. exfalso. apply not_elem_of_cons in Hn as [_ Hn].
      by apply IH in Hn.
    + split; [|done]. intros _. apply not_elem_of_cons. split; [done|].
      by apply IH.
Qed.

Lemma addListener_present l ls : l ∈ ls -> addListener l ls = ls.
Proof.
  intros Hin. unfold addListener.
  destruct (indexOf l ls) eqn:Hi; [done|]. by apply indexOf_None in Hi.
Qed.

Lemma addListener_absent l ls : l ∉ ls -> addListener l ls = ls ++ [l].
Proof. intros Hn. unfold addListener. apply indexOf_None in Hn. by rewrite Hn. Qed.

(** [removeListener] drops the first occurrence. *)
Lemma removeListener_cons l y ls :
  removeListener l (y :: ls) = if decide (y = l) then ls else y :: removeListener l ls.
Proof.
  unfold removeListener. simpl. case_bool_decide; case_decide; try done.
  by destruct (indexOf l ls).
Qed.

Lemma removeListener_absent l ls : l ∉ ls -> removeListener l ls = ls.
Proof. intros Hn. unfold removeListener. apply indexOf_None in Hn. by rewrite Hn. Qed.

Lemma removeListener_elem x l ls :
  NoDup ls -> x ∈ removeListener l ls <-> x ∈ ls /\ x <> l.
Proof.
  induction ls as [|y ls IH]; intros Hnd.
  - rewrite removeListener_absent by set_solver. set_solver.
  - apply NoDup_cons in Hnd as [Hy Hnd]. rewrite removeListener_cons.
    case_decide; subst.
    + set_solver.
    + rewrite !elem_of_cons, (IH Hnd). naive_solver.
Qed.

Lemma removeListener_NoDup l ls : NoDup ls -> NoDup (removeListener l ls).
Proof.
  induction ls as [|y ls IH]; intros Hnd.
  - by rewrite removeListener_absent by set_solver.
  - pose proof Hnd as Hnd0. apply NoDup_cons in Hnd as [Hy Hnd].
    rewrite removeListener_cons. case_decide; [done|].
    apply NoDup_cons. split; [|by apply IH].
    rewrite removeListener_elem by done. tauto.
Qed.

Lemma addListener_NoDup l ls : NoDup ls -> NoDup (addListener l ls).
Proof.
  intros Hnd. destruct (decide (l ∈ ls)) as [Hin|Hn].
  - by rewrite addListener_present.
  - rewrite addListener_absent by done. apply NoDup_app.
    split; [done|]. split; [|apply NoDup_singleton].
    intros x Hx Hl. apply list_elem_of_singleton in Hl. by subst.
Qed.

Lemma addListener_elem x l ls : x ∈ addListener l ls <-> x ∈ ls \/ x = l.
Proof.
  destruct (decide (l ∈ ls)) as [Hin|Hn].
  - rewrite addListener_present by done. set_solver.
  - rewrite addListener_absent by done. set_solver.
Qed.

Lemma lastAdded_snoc listener ops o l :
  lastAdded listener (ops ++ [o]) l <->
  o = Add l \/ (o <> Remove l /\ lastAdded listener ops l).
Proof.
  unfold lastAdded. split.
  - intros [(o1 & o2 & H & Hno)|[Hl Hno]].
    + destruct o2 as [|y o2 _] using rev_ind.
      * apply app_inj_tail in H as [_ ->]. by left.
      * change (o1 ++ Add l :: o2 ++ [y]) with (o1 ++ (Add l :: o2) ++ [y]) in H.
        rewrite app_assoc in H. apply app_inj_tail in H as [-> ->].
        right. split; [set_solver|]. left. exists o1, o2. set_solver.
    + right. split; [set_solver|]. right. set_solver.
  - intros [->|[Hne [(o1 & o2 & -> & Hno)|[Hl Hno]]]].
    + left. exists ops, []. set_solver.
    + left. exists o1, (o2 ++ [o]). split; [by rewrite <- app_assoc|]. set_solver.
    + right. set_solver.
Qed.

(** After any calls of [addListener] and [removeListener] the list holds
    no listener twice, and it holds a listener exactly when the last call
    that named it was [addListener] (or, with no such call, when it is
    the constructor's listener): adding twice registers once, and
    removing what is not registered does nothing. *)
Theorem registered_iff_last_added listener ops :
  NoDup (applyOps ops (initialListeners listener)) /\
  forall l, l ∈ applyOps ops (initialListeners listener) <-> lastAdded listener ops l.
Proof.
  induction ops as [|o ops [IHn IHe]] using rev_ind.
  - split; [destruct listener; simpl; [apply NoDup_singleton|apply NoDup_nil_2]|].
    intros l. unfold lastAdded. cbn. split.
    + intros Hl. right. destruct listener as [l0|]; simpl in Hl; set_solver.
    + intros [(o1 & o2 & H & _)|[-> _]]; [by destruct o1|]. simpl. set_solver.
  - unfold applyOps in *. rewrite foldl_app. simpl. split.
    + destruct o; simpl; [by apply addListener_NoDup|by apply removeListener_NoDup].
    + intros l. rewrite lastAdded_snoc, <- IHe. destruct o as [k|k]; simpl.
      * rewrite addListener_elem. naive_solver.
      * rewrite removeListener_elem by done. naive_solver.
Qed.

Lemma call_all body copy : forall m,
  called (foldl (fun acc l => callListener body l acc) m copy) = called m ++ copy /\
  listeners (foldl (fun acc l => callListener body l acc) m copy)
    = applyOps (concat (body <$> copy)) (listeners m).
Proof.
  induction copy as [|l copy IH]; intros m; simpl.
  - by rewrite app_nil_r.
  - destruct (IH (callListener body l m)) as [-> ->]. simpl. split.
    + by rewrite <- app_assoc.
    + unfold applyOps. by rewrite foldl_app.
Qed.

(** [fire] calls every listener that is registered when it starts,
    once and in the order of registration, whatever the listeners do to
    the list while they run: a listener that removes itself or another
    one does not cut the round short, and a listener added during the
    round is not called before the next one. *)
Theorem fire_calls_the_listeners_it_started_with body m :
  called (fireAll body m) = called m ++ listeners m /\
  listeners (fireAll body m)
    = applyOps (concat (body <$> listeners m)) (listeners m).
Proof. unfold fireAll. apply call_all. Qed.

End PushButtonMoreFacts.

(* ===================================================================== *)
(** * More properties of AquaRadioButton *)
(* ===================================================================== *)

Module AquaRadioButtonMoreFacts.
Import AquaRadioButton AquaRadioButtonMore.

Section Facts.
Context {T : Type} `{EqDecision T}.
Implicit Types (s : State T) (value : T).

Lemma notify_inSync value s : inSync value (notify value s).
Proof. by repeat split. Qed.

Lemma property_set_inSync value v s :
  inSync value s -> inSync value (property_set value v s).
Proof.
  intros Hs. unfold property_set. case_bool_decide; [done|].
  apply notify_inSync.
Qed.

Lemma step_inSync value i s : inSync value s -> inSync value (step value i s).
Proof.
  intros Hs. destruct i as [[|]|v]; simpl; unfold fire;
    by apply (property_set_inSync value).
Qed.

Lemma step_plays value i s :
  soundPlays (step value i s) =
  soundPlays s + (if i is Activate _ then 1 else 0).
Proof.
  destruct i as [[|]|v]; simpl; unfold fire, property_set;
    case_bool_decide; simpl; lia.
Qed.

(** Whoever writes the Property and however often the button is
    activated, the button stays in step with the Property: the selected
    node is visible exactly when the Property holds the button's value,
    the deselected node exactly when it does not, the checked state of
    the accessible input agrees, and one sound has been played per
    activation and none for the writes of others. *)
Theorem button_follows_its_property value v0 ins :
  let s := run value ins (init value v0) in
  selectedVisible s = bool_decide (propertyValue s = value)
  /\ deselectedVisible s = negb (selectedVisible s)
  /\ pdomChecked s = selectedVisible s
  /\ soundPlays s = activations ins.
Proof.
  simpl. induction ins as [|i ins IH] using rev_ind.
  - by repeat split.
  - unfold run, activations in *. rewrite foldl_app, filter_app, length_app. simpl.
    destruct IH as (H1 & H2 & H3 & H4).
    pose proof (step_inSync value i _ (conj H1 (conj H2 H3))) as (G1 & G2 & G3).
    repeat split; try done.
    rewrite step_plays, H4, filter_cons, filter_nil.
    destruct i; by case_decide.
Qed.

End Facts.

End AquaRadioButtonMoreFacts.

(* ===================================================================== *)
(** * More properties of the AccessibleNumberSpinner *)
(* ===================================================================== *)

Module SpinnerMoreFacts.
Import Spinner SpinnerMore.

Lemma incrementDown_snoc l x :
  incrementDown (l ++ [x]) =
  match x with IncrementDownEmit b => b | _ => incrementDown l end.
Proof. unfold incrementDown. by rewrite foldl_app. Qed.

Lemma decrementDown_snoc l x :
  decrementDown (l ++ [x]) =
  match x with DecrementDownEmit b => b | _ => decrementDown l end.
Proof. unfold decrementDown. by rewrite foldl_app. Qed.

(** What [_emitKeyState] does to the two emitters. *)
Lemma emitKeyState_emitters e b s :
  incrementDown (log (_emitKeyState e b s))
    = (if isIncrementKey e then b else incrementDown (log s)) /\
  decrementDown (log (_emitKeyState e b s))
    = (if isDecrementKey e then b else decrementDown (log s)).
Proof.
  unfold _emitKeyState, isDecrementKey, isIncrementKey.
  destruct (isAnyKeyEvent e [KEY_UP_ARROW; KEY_RIGHT_ARROW]); simpl.
  - by rewrite incrementDown_snoc, decrementDown_snoc.
  - destruct (isAnyKeyEvent e [KEY_DOWN_ARROW; KEY_LEFT_ARROW]); simpl; [|done].
    by rewrite incrementDown_snoc, decrementDown_snoc.
Qed.

(** The two directions exclude each other. *)
Lemma not_both_directions e : isIncrementKey e && isDecrementKey e = false.
Proof. unfold isDecrementKey. by destruct (isIncrementKey e). Qed.

Lemma direction_code e e' :
  getEventCode e' = getEventCode e ->
  isIncrementKey e' = isIncrementKey e /\ isDecrementKey e' = isDecrementKey e.
Proof.
  unfold isDecrementKey, isIncrementKey, isAnyKeyEvent, getEventCode.
  by intros ->.
Qed.

(** The bound handler says down for the direction of its key. *)
Lemma handleKeyDown_emitters e s :
  incrementDown (log (_accessibleNumberSpinnerHandleKeyDown e s))
    = (if isIncrementKey e then true else incrementDown (log s)) /\
  decrementDown (log (_accessibleNumberSpinnerHandleKeyDown e s))
    = (if isDecrementKey e then true else decrementDown (log s)).
Proof.
  unfold _accessibleNumberSpinnerHandleKeyDown.
  destruct (emitKeyState_emitters e true (emit (HandleKeyDown e) s)) as [-> ->].
  simpl. by rewrite incrementDown_snoc, decrementDown_snoc.
Qed.

Lemma keyStateAgrees_init o : keyStateAgrees (init o).
Proof. by repeat split. Qed.

Lemma keyStateAgrees_emit x s :
  (forall b, x <> IncrementDownEmit b) -> (forall b, x <> DecrementDownEmit b) ->
  keyStateAgrees s -> keyStateAgrees (emit x s).
Proof.
  intros Hi Hd. unfold keyStateAgrees. simpl.
  rewrite incrementDown_snoc, decrementDown_snoc.
  by destruct x; try done; [destruct (Hi isDown)|destruct (Hd isDown)].
Qed.

Lemma keyStateAgrees_step i s : keyStateAgrees s -> keyStateAgrees (step i s).
Proof.
  intros Hs. destruct i as [e|e| | |b]; simpl.
  - (* keydown *)
    unfold keydown.
    destruct (enabled s); [|done].
    destruct (isRangeKey e); [|done].
    destruct (metaKey e); simpl; [by apply keyStateAgrees_emit|].
    destruct (isRunning (timer s)) eqn:Hrun; simpl;
      [by apply keyStateAgrees_emit|].
    unfold keyStateAgrees in Hs. rewrite Hrun in Hs. destruct Hs as (Hcb & Hi & Hd).
    destruct (SpinnerFacts.handleKeyDown_fields e (emit PreventDefault s))
      as (_ & Ht & _ & _ & _).
    destruct (handleKeyDown_emitters e (emit PreventDefault s)) as [Hi' Hd'].
    simpl in Hi', Hd'. rewrite incrementDown_snoc in Hi'.
    rewrite decrementDown_snoc in Hd'. rewrite Hi in Hi'. rewrite Hd in Hd'.
    unfold isRunning in Hrun. destruct (phase (timer s)) eqn:Hph; [|done..].
    unfold keyStateAgrees, start, isRunning, addCallback. simpl.
    rewrite Ht. simpl. rewrite Hph, Hcb. simpl.
    exists e. repeat split.
    + rewrite Hi'. by destruct (isIncrementKey e).
    + rewrite Hd'. by destruct (isDecrementKey e).
  - (* keyup *)
    unfold keyup.
    destruct (isRangeKey e); [|done].
    destruct (runningTimerCallbackEvent s) as [r|] eqn:Hr;
      [|by apply keyStateAgrees_emit].
    case_bool_decide as Hcode; [|by apply keyStateAgrees_emit].
    apply keyStateAgrees_emit; [done..|].
    destruct (SpinnerFacts.emitKeyState_fields e false s) as (_ & Ht & Hdc & _ & _).
    destruct (emitKeyState_emitters e false s) as [Hi' Hd'].
    destruct (direction_code r e Hcode) as [Hic Hdc'].
    unfold keyStateAgrees in *. simpl. rewrite Hdc, Ht.
    replace (isRunning (removeCallback (downCallback s) (stop (timer s))))
      with false by (by destruct (downCallback s)).
    rewrite Hi', Hd', Hic, Hdc'.
    destruct (isRunning (timer s)).
    + destruct Hs as (e0 & Hcb & Hev & Hdown & Hi & Hd). simplify_eq.
      rewrite Hdown. simpl. rewrite Hcb, Hi, Hd.
      rewrite SpinnerFacts.remove_first_singleton.
      by destruct (isIncrementKey e0), (isDecrementKey e0).
    + destruct Hs as (Hcb & Hi & Hd). rewrite Hi, Hd.
      repeat split.
      * destruct (downCallback s); simpl; by rewrite Hcb.
      * by destruct (isIncrementKey r).
      * by destruct (isDecrementKey r).
  - (* blur *)
    unfold blur. apply keyStateAgrees_emit; [done..|].
    destruct (downCallback s) as [cb|] eqn:Hcb.
    + set (s1 := match runningTimerCallbackEvent s with
                 | Some running => _emitKeyState running false s
                 | None => s end).
      assert (Ht : timer s1 = timer s).
      { unfold s1. destruct (runningTimerCallbackEvent s) as [k|]; [|done].
        by destruct (SpinnerFacts.emitKeyState_fields k false s) as (_ & -> & _). }
      unfold keyStateAgrees in *. simpl. rewrite Ht. simpl.
      destruct (isRunning (timer s)).
      * destruct Hs as (e0 & Hcbs & Hev & Hdown & Hi & Hd). simplify_eq.
        rewrite Hcbs, SpinnerFacts.remove_first_singleton.
        unfold s1. rewrite Hev.
        destruct (emitKeyState_emitters e0 false s) as [-> ->].
        rewrite Hi, Hd.
        by destruct (isIncrementKey e0), (isDecrementKey e0).
      * destruct Hs as (Hcbs & Hi & Hd). rewrite Hcbs. simpl.
        unfold s1. destruct (runningTimerCallbackEvent s) as [k|]; [|done].
        destruct (emitKeyState_emitters k false s) as [-> ->].
        rewrite Hi, Hd.
        by destruct (isIncrementKey k), (isDecrementKey k).
    + unfold keyStateAgrees in *. destruct (isRunning (timer s)); [|done].
      destruct Hs as (e0 & _ & _ & Hdown & _). by rewrite Hcb in Hdown.
  - (* tick *)
    unfold tick.
    destruct (phase (timer s)) as [|r|r] eqn:Hph; [done| |].
    all: unfold keyStateAgrees in Hs; unfold isRunning in Hs; rewrite Hph in Hs.
    all: destruct Hs as (e0 & Hcb & Hev & Hdown & Hi & Hd).
    all: destruct (r <=? 1).
    all: try (unfold keyStateAgrees, with_phase, isRunning; simpl;
              rewrite ?Hcb; by exists e0).
    all: set (s1 := with_phase (Repeating (interval (timer s))) s).
    all: destruct (SpinnerFacts.fireCallbacks_armed
             (delay (timer s)) (interval (timer s)) e0
             (Repeating (interval (timer s))) s1) as (Ht & Hdc & Hrc & _);
      [unfold s1, with_phase; simpl; by rewrite Hcb|].
    all: unfold keyStateAgrees, isRunning; rewrite Ht, Hdc, Hrc.
    all: unfold fireCallbacks; simpl; rewrite Hcb; simpl.
    all: destruct (handleKeyDown_emitters e0 s1) as [-> ->].
    all: exists e0; repeat split; try done; simpl; rewrite ?Hi, ?Hd.
    all: by destruct (isIncrementKey e0), (isDecrementKey e0).
  - done.
Qed.

(** After any inputs the key-state emitters agree with the timer: while
    a repeat runs, the emitter of the direction of the key that armed it
    says down and the other says up; when no repeat runs both say up. A
    page, home or end key never makes an emitter say down, and no keyup
    or blur leaves one saying down. *)
Theorem key_state_is_never_stuck o ins :
  let s := run ins (init o) in
  if isRunning (timer s)
  then exists e, runningTimerCallbackEvent s = Some e /\
         incrementDown (log s) = isIncrementKey e /\
         decrementDown (log s) = isDecrementKey e
  else incrementDown (log s) = false /\ decrementDown (log s) = false.
Proof.
  simpl.
  assert (Hs : keyStateAgrees (run ins (init o))).
  { induction ins as [|i ins IH] using rev_ind; [apply keyStateAgrees_init|].
    rewrite SpinnerFacts.spinner_run_snoc. by apply keyStateAgrees_step. }
  unfold keyStateAgrees in Hs. destruct (isRunning _).
  - destruct Hs as (e & _ & He & _ & Hi & Hd). by exists e.
  - by destruct Hs as (_ & Hi & Hd).
Qed.


Lemma Forall_remove_first (Q : KeyboardEvent -> Prop) c l :
  Forall Q l -> Forall Q (remove_first c l).
Proof.
  induction 1 as [|x l Hx Hl IH]; simpl; [done|].
  case_bool_decide; [done|]. by constructor.
Qed.

(** Calling the callbacks performs one action per callback, in order. *)
Lemma fireCallbacks_actions s :
  actions (log (fireCallbacks s)) = actions (log s) ++ callbacks (timer s) /\
  timer (fireCallbacks s) = timer s.
Proof.
  unfold fireCallbacks. generalize (callbacks (timer s)) as cbs. intros cbs.
  revert s. induction cbs as [|cb cbs IH]; intros s; simpl.
  - by rewrite app_nil_r.
  - destruct (IH (_accessibleNumberSpinnerHandleKeyDown cb s)) as [-> ->].
    destruct (SpinnerFacts.handleKeyDown_fields cb s) as (_ & -> & _ & _ & ->).
    by rewrite <- app_assoc.
Qed.

Lemma actions_step (Q : KeyboardEvent -> Prop) i s :
  (forall e, i = Keydown e -> isRangeKey e = true -> metaKey e = false -> Q e) ->
  Forall Q (actions (log s)) -> Forall Q (callbacks (timer s)) ->
  Forall Q (actions (log (step i s))) /\ Forall Q (callbacks (timer (step i s))).
Proof.
  intros Hq Ha Hc. destruct i as [e|e| | |b]; simpl.
  - unfold keydown.
    destruct (enabled s); [|done].
    destruct (isRangeKey e) eqn:Hrange; [|done].
    destruct (metaKey e) eqn:Hmeta; simpl;
      [by rewrite SpinnerFacts.actions_app, app_nil_r|].
    destruct (isRunning (timer s)); simpl;
      [by rewrite SpinnerFacts.actions_app, app_nil_r|].
    destruct (SpinnerFacts.handleKeyDown_fields e (emit PreventDefault s))
      as (_ & Ht & _ & _ & Hact).
    rewrite Hact, Ht. simpl. rewrite SpinnerFacts.actions_app, app_nil_r.
    assert (Q e) by by apply Hq.
    split; [by apply Forall_app; split; [|constructor]|].
    unfold start, addCallback. simpl.
    destruct (isRunning _); simpl; case_bool_decide; try done;
      by apply Forall_app; split; [|constructor].
  - unfold keyup.
    destruct (isRangeKey e); [|done].
    destruct (runningTimerCallbackEvent s) as [r|];
      [|by simpl; rewrite SpinnerFacts.actions_app, app_nil_r].
    case_bool_decide; [|by simpl; rewrite SpinnerFacts.actions_app, app_nil_r].
    destruct (SpinnerFacts.emitKeyState_fields e false s)
      as (_ & Ht & Hdc & _ & Hact).
    simpl. rewrite SpinnerFacts.actions_app, app_nil_r, Hact, Hdc, Ht.
    split; [done|].
    destruct (downCallback s); simpl; [by apply Forall_remove_first|done].
  - unfold blur. simpl. rewrite SpinnerFacts.actions_app, app_nil_r.
    destruct (downCallback s) as [cb|]; [|done].
    set (s1 := match runningTimerCallbackEvent s with
               | Some running => _emitKeyState running false s
               | None => s end).
    assert (Hs1 : timer s1 = timer s /\ actions (log s1) = actions (log s)).
    { unfold s1. destruct (runningTimerCallbackEvent s) as [k|]; [|done].
      by destruct (SpinnerFacts.emitKeyState_fields k false s)
        as (_ & -> & _ & _ & ->). }
    destruct Hs1 as [Ht Hact]. simpl. rewrite Hact, Ht.
    split; [done|]. by apply Forall_remove_first.
  - unfold tick.
    destruct (phase (timer s)) as [|r|r]; [done| |]; destruct (r <=? 1);
      try done.
    all: destruct (fireCallbacks_actions
                     (with_phase (Repeating (interval (timer s))) s)) as [-> ->].
    all: simpl; split; [by apply Forall_app|done].
  - done.
Qed.


End SpinnerMoreFacts.

(* ===================================================================== *)
(** * More properties of the ComboBox *)
(* ===================================================================== *)

Module ComboBoxMoreFacts.
Import ComboBox ComboBoxMore.

Section Facts.
Variable l : nat.
Implicit Types (s : State) (w : gmap nat (list nat)) (d : nat).

Lemma filter_others_snoc (ls : list nat) :
  filter (fun x => x <> l) (ls ++ [l]) = filter (fun x => x <> l) ls.
Proof.
  rewrite filter_app, filter_cons, filter_nil.
  rewrite decide_False by (by intros H). by rewrite app_nil_r.
Qed.

Lemma filter_others_twice (ls : list nat) :
  filter (fun x => x <> l) (filter (fun x => x <> l) ls) = filter (fun x => x <> l) ls.
Proof. rewrite list_filter_filter. apply list_filter_iff. tauto. Qed.

Lemma filter_others_absent (ls : list nat) :
  l ∉ ls -> filter (fun x => x <> l) ls = ls.
Proof.
  induction ls as [|y ls IH]; [done|]. intros Hn.
  apply not_elem_of_cons in Hn as [Hy Hn].
  rewrite filter_cons, decide_True by done. by rewrite IH.
Qed.

(** Setting the visibility touches no listener of others. *)
Lemma set_visible_others v s s' :
  set_visible l v s = Ok s' -> forall d, othersOn l s' d = othersOn l s d.
Proof.
  unfold set_visible, othersOn. case_bool_decide; [by intros [= <-]|].
  unfold visibleListener. destruct v; simpl.
  - destruct (display s); [done|].
    destruct (head (rootedDisplays s)) as [d0|]; [|done].
    unfold addInputListener. destruct (hasInputListener _ _ _); [done|]. simpl.
    intros [= <-] d. simpl. rewrite ComboBoxFacts.listenersOf_insert.
    case_decide; [subst; apply filter_others_snoc|done].
  - destruct (display s) as [d0|]; [|by intros [= <-]].
    unfold removeInputListener. destruct (hasInputListener _ _ _); [|by intros [= <-]].
    simpl. intros [= <-] d. simpl. rewrite ComboBoxFacts.listenersOf_insert.
    case_decide; [subst; apply filter_others_twice|done].
Qed.

Lemma step_others i s s' :
  step l i s = Ok s' -> forall d, othersOn l s' d = othersOn l s d.
Proof.
  destruct i as [| | | |d0 fz event|focus|b|ds]; simpl.
  - unfold buttonListener. intros (s1 & H1 & H2)%ComboBoxFacts.bind_Ok.
    injection H2 as <-. intros d. rewrite <- (set_visible_others _ _ _ H1 d).
    by destruct (visible s1).
  - apply set_visible_others.
  - apply set_visible_others.
  - apply set_visible_others.
  - unfold dispatchDown, clickToDismissListener_down.
    destruct (hasInputListener _ _ _); [|by intros [= <-]].
    destruct (_ || _); [|by intros [= <-]].
    destruct (negb _); [apply set_visible_others|by intros [= <-]].
  - unfold dismissWithFocusListener.
    destruct focus as [c|]; [|by intros [= <-]].
    destruct (negb c); [apply set_visible_others|by intros [= <-]].
  - unfold set_displayOnly. case_bool_decide; [by intros [= <-]|].
    unfold displayOnlyListener. intros (s1 & H1 & H2)%ComboBoxFacts.bind_Ok.
    injection H2 as <-. intros d.
    exact (set_visible_others _ _ _ H1 d).
  - by intros [= <-].
Qed.

Lemma run_others ins : forall s s',
  run l ins s = Ok s' -> forall d, othersOn l s' d = othersOn l s d.
Proof.
  induction ins as [|i ins IH]; intros s s'; simpl.
  - by intros [= <-].
  - intros (s1 & H1 & H2)%ComboBoxFacts.bind_Ok d.
    rewrite (IH _ _ H2 d). exact (step_others _ _ _ H1 d).
Qed.

(** The combo box never touches the input listeners of others: whatever
    happens to it, every display keeps the listeners it had besides the
    dismiss listener, in their order; and whenever the list box is
    hidden, every display has exactly the listeners it had when the
    combo box was constructed. *)
Theorem listeners_of_others_are_kept ds w ins s :
  (forall d, l ∉ listenersOf w d) ->
  run l ins (init ds w) = Ok s ->
  (forall d, othersOn l s d = listenersOf w d)
  /\ (visible s = false -> forall d, listenersOf (inputListeners s) d = listenersOf w d).
Proof.
  intros Hfresh Hrun.
  assert (Ho : forall d, othersOn l s d = listenersOf w d).
  { intros d. rewrite (run_others _ _ _ Hrun d). unfold othersOn. simpl.
    by apply filter_others_absent. }
  split; [done|]. intros Hv d.
  pose proof (ComboBoxFacts.run_consistent l ins _ _
                (ComboBoxFacts.init_consistent l ds w Hfresh) Hrun) as Hc.
  unfold consistent in Hc. rewrite Hv in Hc. destruct Hc as [_ Hno].
  rewrite <- Ho. unfold othersOn. symmetry. apply filter_others_absent, Hno.
Qed.

(** The one way a call can throw from a consistent state: opening the
    hidden list box while no display is rooted. *)
Lemma set_visible_throws v s msg :
  consistent l s -> set_visible l v s = Throws msg ->
  v = true /\ visible s = false /\ rootedDisplays s = [] /\
  msg = "TypeError: this.display is undefined"%string.
Proof.
  intros Hc. destruct v.
  - destruct (visible s) eqn:Hv.
    + unfold set_visible. by rewrite Hv.
    + pose proof (ComboBoxFacts.show_consistent l s Hc Hv) as Hs.
      destruct (rootedDisplays s) as [|d0 ds0] eqn:Hr; simpl in Hs.
      * intros Hth. repeat split; try done.
        unfold consistent in Hc. rewrite Hv in Hc. destruct Hc as [Hd _].
        unfold set_visible, visibleListener in Hth. rewrite Hv in Hth.
        simpl in Hth. rewrite Hd, Hr in Hth. simpl in Hth. by injection Hth as <-.
      * destruct Hs as (s' & -> & _). done.
  - destruct (ComboBoxFacts.hideListBox_consistent l s Hc) as (s' & H1 & _).
    unfold hideListBox in H1. by rewrite H1.
Qed.

Lemma step_throws i s msg :
  consistent l s -> step l i s = Throws msg ->
  (i = ButtonFire \/ i = ShowListBox) /\
  visible s = false /\ rootedDisplays s = [] /\
  msg = "TypeError: this.display is undefined"%string.
Proof.
  intros Hc. destruct i as [| | | |d0 fz event|focus|b|ds]; simpl.
  - unfold buttonListener.
    destruct (set_visible l (negb (visible s)) s) as [s1|m] eqn:Hset; [done|].
    simpl. intros [= <-].
    apply set_visible_throws in Hset as (_ & H2 & H3 & H4); [|done]. auto.
  - intros Hth. apply set_visible_throws in Hth as (_ & H2 & H3 & H4); auto.
  - intros Hth. by apply set_visible_throws in Hth as (? & _).
  - intros Hth. by apply set_visible_throws in Hth as (? & _).
  - unfold dispatchDown, clickToDismissListener_down.
    destruct (hasInputListener _ _ _); [|done].
    destruct (_ || _); [|done]. destruct (negb _); [|done].
    intros Hth. by apply set_visible_throws in Hth as (? & _).
  - unfold dismissWithFocusListener. destruct focus as [c|]; [|done].
    destruct (negb c); [|done].
    intros Hth. by apply set_visible_throws in Hth as (? & _).
  - unfold set_displayOnly. case_bool_decide; [done|].
    unfold displayOnlyListener.
    set (s0 := {| visible := visible s; display := display s; displayOnly := b;
                  pickable := pickable s; rootedDisplays := rootedDisplays s;
                  inputListeners := inputListeners s; effects := effects s |}).
    assert (Hc0 : consistent l s0) by exact Hc.
    by destruct (ComboBoxFacts.hideListBox_consistent l s0 Hc0) as (s2 & -> & _).
  - done.
Qed.

Lemma run_throws ins : forall s msg,
  consistent l s -> run l ins s = Throws msg ->
  msg = "TypeError: this.display is undefined"%string /\
  exists pre i post s1,
    ins = pre ++ i :: post /\ run l pre s = Ok s1 /\
    (i = ButtonFire \/ i = ShowListBox) /\
    visible s1 = false /\ rootedDisplays s1 = [].
Proof.
  induction ins as [|i ins IH]; intros s msg Hc; simpl; [done|].
  destruct (step l i s) as [s1|m] eqn:Hstep; simpl.
  - intros Hrun.
    destruct (IH s1 msg (ComboBoxFacts.step_consistent l _ _ _ Hc Hstep) Hrun)
      as (Hmsg & pre & j & post & s2 & -> & Hpre & Hj & Hv & Hr).
    split; [done|]. exists (i :: pre), j, post, s2. simpl. rewrite Hstep. simpl.
    by repeat split.
  - intros [= <-]. destruct (step_throws _ _ _ Hc Hstep) as (Hi & Hv & Hr & Hm).
    split; [done|]. by exists [], i, ins, s.
Qed.

(** Nothing the combo box does can throw except opening the list box
    while no display is rooted under it: a run that throws throws the
    TypeError of the missing display, at a button click or a call of
    [showListBox] that finds the list box hidden and no rooted display.
    The assertion on the tracked display and the assertions of the
    display on double registration never fail. *)
Theorem only_a_missing_display_throws ds w ins msg :
  (forall d, l ∉ listenersOf w d) ->
  run l ins (init ds w) = Throws msg ->
  msg = "TypeError: this.display is undefined"%string /\
  exists pre i post s,
    ins = pre ++ i :: post /\ run l pre (init ds w) = Ok s /\
    (i = ButtonFire \/ i = ShowListBox) /\
    visible s = false /\ rootedDisplays s = [].
Proof.
  intros Hfresh. apply run_throws. by apply ComboBoxFacts.init_consistent.
Qed.

(** While the list box is open, focus moving to a trail outside the
    list box closes it and detaches the dismiss listener; focus inside
    the list box, or focus going nowhere, leaves the combo box as it is. *)
Theorem focus_outside_dismisses ds w ins s :
  (forall d, l ∉ listenersOf w d) ->
  run l ins (init ds w) = Ok s ->
  visible s = true ->
  (exists s' d, step l (FocusChange (Some false)) s = Ok s' /\
     visible s' = false /\ display s' = None /\
     (forall d', ~ attachedTo l s' d') /\
     effects s' = effects s ++ [DetachDismissListener d])
  /\ step l (FocusChange (Some true)) s = Ok s
  /\ step l (FocusChange None) s = Ok s.
Proof.
  intros Hfresh Hrun Hv.
  pose proof (ComboBoxFacts.run_consistent l ins _ _
                (ComboBoxFacts.init_consistent l ds w Hfresh) Hrun) as Hc.
  split; [|done]. simpl.
  destruct (ComboBoxFacts.hide_consistent l s Hc Hv)
    as (s' & d & H1 & Hc' & Hv' & _ & _ & He).
  exists s', d. split; [done|]. split; [done|].
  unfold consistent in Hc'. rewrite Hv' in Hc'. by destruct Hc'.
Qed.

Lemma buttonDisplayOnly_app effs xs :
  (forall b, ButtonSetDisplayOnly b ∉ xs) ->
  buttonDisplayOnly (effs ++ xs) = buttonDisplayOnly effs.
Proof.
  unfold buttonDisplayOnly. rewrite foldl_app. generalize (foldl
    (fun acc x => match x with ButtonSetDisplayOnly b => Some b | _ => acc end)
    None effs) as a.
  induction xs as [|x xs IH]; intros a Hn; [done|]. simpl.
  rewrite IH by set_solver. destruct x; try done. set_solver.
Qed.

(** The mode of the button and the pickability follow [displayOnly]. *)
Lemma set_visible_mode v s s' :
  set_visible l v s = Ok s' ->
  pickable s' = pickable s /\ displayOnly s' = displayOnly s /\
  buttonDisplayOnly (effects s') = buttonDisplayOnly (effects s).
Proof.
  unfold set_visible. case_bool_decide; [by intros [= <-]|].
  unfold visibleListener. destruct v; simpl.
  - destruct (display s); [done|].
    destruct (head (rootedDisplays s)) as [d0|]; [|done].
    unfold addInputListener. destruct (hasInputListener _ _ _); [done|]. simpl.
    intros [= <-]. simpl. repeat split.
    rewrite <- app_assoc. apply buttonDisplayOnly_app. set_solver.
  - destruct (display s) as [d0|]; [|by intros [= <-]].
    unfold removeInputListener. destruct (hasInputListener _ _ _); [|by intros [= <-]].
    simpl. intros [= <-]. simpl. repeat split.
    apply buttonDisplayOnly_app. set_solver.
Qed.

Lemma step_mode i s s' :
  step l i s = Ok s' ->
  pickable s = negb (displayOnly s) ->
  buttonDisplayOnly (effects s) = Some (displayOnly s) ->
  pickable s' = negb (displayOnly s') /\
  buttonDisplayOnly (effects s') = Some (displayOnly s').
Proof.
  intros Hstep Hp Hb.
  assert (Hset : forall v s1, set_visible l v s = Ok s1 ->
            pickable s1 = negb (displayOnly s1) /\
            buttonDisplayOnly (effects s1) = Some (displayOnly s1)).
  { intros v s1 (-> & -> & ->)%set_visible_mode. done. }
  destruct i as [| | | |d0 fz event|focus|b|ds]; simpl in Hstep.
  - unfold buttonListener in Hstep.
    apply ComboBoxFacts.bind_Ok in Hstep as (s1 & H1 & [= <-]).
    destruct (Hset _ _ H1) as [G1 G2]. destruct (visible s1); [|done].
    simpl. split; [done|]. rewrite buttonDisplayOnly_app; [done|set_solver].
  - by eapply Hset.
  - by eapply Hset.
  - by eapply Hset.
  - unfold dispatchDown, clickToDismissListener_down in Hstep.
    destruct (hasInputListener _ _ _); [|by injection Hstep as <-].
    destruct (_ || _); [|by injection Hstep as <-].
    destruct (negb _); [by eapply Hset|by injection Hstep as <-].
  - unfold dismissWithFocusListener in Hstep.
    destruct focus as [c|]; [|by injection Hstep as <-].
    destruct (negb c); [by eapply Hset|by injection Hstep as <-].
  - unfold set_displayOnly in Hstep.
    case_bool_decide; [by injection Hstep as <-|].
    unfold displayOnlyListener in Hstep.
    apply ComboBoxFacts.bind_Ok in Hstep as (s1 & H1 & [= <-]).
    apply set_visible_mode in H1 as (G1 & G2 & G3). simpl in *.
    rewrite G2. split; [done|].
    unfold buttonDisplayOnly. by rewrite foldl_app.
  - by injection Hstep as <-.
Qed.

Lemma run_mode ins : forall s s',
  run l ins s = Ok s' ->
  pickable s = negb (displayOnly s) ->
  buttonDisplayOnly (effects s) = Some (displayOnly s) ->
  pickable s' = negb (displayOnly s') /\
  buttonDisplayOnly (effects s') = Some (displayOnly s').
Proof.
  induction ins as [|i ins IH]; intros s s'; simpl.
  - by intros [= <-].
  - intros (s1 & H1 & H2)%ComboBoxFacts.bind_Ok Hp Hb.
    destruct (step_mode _ _ _ H1 Hp Hb). by eapply IH.
Qed.

(** The display-only mode: at all times the combo box is pickable
    exactly when it is not display-only and the button was last told the
    current mode; and every change of the mode, turning it off as well as
    turning it on, closes the list box and detaches the dismiss listener. *)
Theorem display_only_change_closes ds w ins s :
  (forall d, l ∉ listenersOf w d) ->
  run l ins (init ds w) = Ok s ->
  pickable s = negb (displayOnly s)
  /\ buttonDisplayOnly (effects s) = Some (displayOnly s)
  /\ forall b, b <> displayOnly s ->
       exists s', step l (SetDisplayOnly b) s = Ok s' /\
         visible s' = false /\ displayOnly s' = b /\ pickable s' = negb b /\
         forall d, ~ attachedTo l s' d.
Proof.
  intros Hfresh Hrun.
  destruct (run_mode _ _ _ Hrun eq_refl eq_refl) as [Hp Hb].
  split; [done|]. split; [done|]. intros b Hne.
  pose proof (ComboBoxFacts.run_consistent l ins _ _
                (ComboBoxFacts.init_consistent l ds w Hfresh) Hrun) as Hc.
  simpl. unfold set_displayOnly.
  rewrite bool_decide_eq_false_2 by (intros Heq; by apply Hne).
  unfold displayOnlyListener.
  set (s0 := {| visible := visible s; display := display s; displayOnly := b;
                pickable := pickable s; rootedDisplays := rootedDisplays s;
                inputListeners := inputListeners s; effects := effects s |}).
  assert (Hc0 : consistent l s0) by exact Hc.
  destruct (ComboBoxFacts.hideListBox_consistent l s0 Hc0) as (s2 & H2 & Hc2 & Hv2 & _).
  rewrite H2. simpl. eexists. split; [done|]. simpl.
  pose proof H2 as H2'. unfold hideListBox in H2'.
  apply set_visible_mode in H2' as (_ & G2 & _).
  repeat split; try done.
  unfold consistent in Hc2. rewrite Hv2 in Hc2. by destruct Hc2.
Qed.

(** Opening and closing with the button is a round trip: from a closed
    combo box with a display rooted under it, one click opens the list
    box on the first rooted display and a second click closes it again,
    after which every display has exactly the listeners it had before
    the two clicks. *)
Theorem click_twice_restores ds w ins s d rest :
  (forall d, l ∉ listenersOf w d) ->
  run l ins (init ds w) = Ok s ->
  visible s = false ->
  rootedDisplays s = d :: rest ->
  exists s1 s2,
    step l ButtonFire s = Ok s1 /\ visible s1 = true /\ display s1 = Some d /\
    attachedTo l s1 d /\
    step l ButtonFire s1 = Ok s2 /\ visible s2 = false /\ display s2 = None /\
    forall d', listenersOf (inputListeners s2) d' = listenersOf (inputListeners s) d'.
Proof.
  intros Hfresh Hrun Hv Hr.
  pose proof (ComboBoxFacts.run_consistent l ins _ _
                (ComboBoxFacts.init_consistent l ds w Hfresh) Hrun) as Hc.
  pose proof (ComboBoxFacts.show_consistent l s Hc Hv) as Hs.
  rewrite Hr in Hs. simpl in Hs.
  destruct Hs as (s1 & H1 & Hc1 & Hv1 & Hd1 & Hr1 & He1).
  set (s1' := emit [FocusListBox] s1).
  assert (Hstep1 : step l ButtonFire s = Ok s1').
  { simpl. unfold buttonListener. rewrite Hv. simpl. rewrite H1. simpl.
    by rewrite Hv1. }
  assert (Hc1' : consistent l s1') by exact Hc1.
  destruct (ComboBoxFacts.hide_consistent l s1' Hc1' Hv1)
    as (s2 & d2 & H2 & Hc2 & Hv2 & _ & _ & _).
  exists s1', s2. split; [done|]. split; [done|]. split; [done|].
  split.
  { unfold consistent in Hc1'. simpl in Hc1'. rewrite Hv1 in Hc1'.
    destruct Hc1' as (d0 & Hd0 & Hat). apply Hat. simpl in Hd0. congruence. }
  split.
  { simpl. unfold buttonListener. change (visible s1') with (visible s1).
    rewrite Hv1. simpl. rewrite H2. simpl. by rewrite Hv2. }
  split; [done|].
  unfold consistent in Hc2. rewrite Hv2 in Hc2. destruct Hc2 as [Hd2 Hno2].
  split; [done|]. intros d'.
  unfold consistent in Hc. rewrite Hv in Hc. destruct Hc as [_ Hno].
  rewrite <- (filter_others_absent (listenersOf (inputListeners s2) d')) by apply Hno2.
  rewrite <- (filter_others_absent (listenersOf (inputListeners s) d')) by apply Hno.
  change (othersOn l s2 d' = othersOn l s d').
  rewrite (set_visible_others _ _ _ H2 d').
  change (othersOn l s1 d' = othersOn l s d').
  exact (set_visible_others _ _ _ H1 d').
Qed.

(** Disposal detaches: disposing a combo box in any state it can reach
    returns, leaves its dismiss listener registered on no display,
    touches no listener of others, and keeps the [display] field as it
    was; on a closed combo box it changes nothing. *)
Theorem dispose_detaches ds w ins s :
  (forall d, l ∉ listenersOf w d) ->
  run l ins (init ds w) = Ok s ->
  exists s', disposeComboBox l s = Ok s' /\
    (forall d, ~ attachedTo l s' d) /\
    (forall d, othersOn l s' d = othersOn l s d) /\
    display s' = display s /\
    (visible s = false -> s' = s).
Proof.
  intros Hfresh Hrun.
  pose proof (ComboBoxFacts.run_consistent l ins _ _
                (ComboBoxFacts.init_consistent l ds w Hfresh) Hrun) as Hc.
  unfold consistent in Hc. unfold disposeComboBox.
  destruct (visible s).
  - destruct Hc as (d & Hd & Hat). rewrite Hd.
    unfold removeInputListener, hasInputListener.
    rewrite bool_decide_eq_true_2 by (by apply Hat). simpl.
    eexists. split; [done|]. simpl. repeat split; try done.
    + intros d'. unfold attachedTo. simpl. rewrite ComboBoxFacts.listenersOf_insert.
      case_decide; subst.
      * rewrite list_elem_of_filter. tauto.
      * intros Hd'. by apply Hat in Hd'.
    + intros d'. unfold othersOn. simpl. rewrite ComboBoxFacts.listenersOf_insert.
      case_decide; [subst; apply filter_others_twice|done].
  - destruct Hc as [Hd Hno]. rewrite Hd. by exists s.
Qed.

End Facts.

Lemma busy_fresh : forall d : nat, 7 ∉ listenersOf (<[0 := [3; 4]]> ∅) d.
Proof.
  intros d. unfold listenersOf. rewrite lookup_insert. case_decide; simpl.
  - set_solver.
  - rewrite lookup_empty. simpl. set_solver.
Qed.

Example busy_opens : run 7 [ButtonFire] busyStart = Ok busyOpen.
Proof. reflexivity. Qed.

Lemma listeners_of_others_are_kept_witness :
  (forall d, othersOn 7 busyOpen d = listenersOf (<[0 := [3; 4]]> ∅) d)
  /\ (visible busyOpen = false ->
      forall d, listenersOf (inputListeners busyOpen) d
                = listenersOf (<[0 := [3; 4]]> ∅) d).
Proof.
  apply (listeners_of_others_are_kept 7 [0] (<[0 := [3; 4]]> ∅) [ButtonFire] busyOpen).
  - exact busy_fresh.
  - reflexivity.
Defined.

Lemma only_a_missing_display_throws_witness :
  "TypeError: this.display is undefined"%string
    = "TypeError: this.display is undefined"%string /\
  exists pre i post s,
    [SetDisplayOnly true; ShowListBox; HideListBox] = pre ++ i :: post /\
    run 7 pre (init [] ∅) = Ok s /\
    (i = ButtonFire \/ i = ShowListBox) /\
    visible s = false /\ rootedDisplays s = [].
Proof.
  apply (only_a_missing_display_throws 7 [] ∅
           [SetDisplayOnly true; ShowListBox; HideListBox]).
  - exact ComboBoxFacts.sample_fresh.
  - reflexivity.
Defined.

Lemma focus_outside_dismisses_witness :
  (exists s' d, step 7 (FocusChange (Some false)) sampleOpen = Ok s' /\
     visible s' = false /\ display s' = None /\
     (forall d', ~ attachedTo 7 s' d') /\
     effects s' = effects sampleOpen ++ [DetachDismissListener d])
  /\ step 7 (FocusChange (Some true)) sampleOpen = Ok sampleOpen
  /\ step 7 (FocusChange None) sampleOpen = Ok sampleOpen.
Proof.
  apply (focus_outside_dismisses 7 [0] ∅ [ButtonFire] sampleOpen).
  - exact ComboBoxFacts.sample_fresh.
  - reflexivity.
  - reflexivity.
Defined.

Lemma display_only_change_closes_witness :
  pickable sampleOpen = negb (displayOnly sampleOpen)
  /\ buttonDisplayOnly (effects sampleOpen) = Some (displayOnly sampleOpen)
  /\ forall b, b <> displayOnly sampleOpen ->
       exists s', step 7 (SetDisplayOnly b) sampleOpen = Ok s' /\
         visible s' = false /\ displayOnly s' = b /\ pickable s' = negb b /\
         forall d, ~ attachedTo 7 s' d.
Proof.
  apply (display_only_change_closes 7 [0] ∅ [ButtonFire] sampleOpen).
  - exact ComboBoxFacts.sample_fresh.
  - reflexivity.
Defined.

Lemma click_twice_restores_witness :
  exists s1 s2,
    step 7 ButtonFire busyStart = Ok s1 /\ visible s1 = true /\ display s1 = Some 0 /\
    attachedTo 7 s1 0 /\
    step 7 ButtonFire s1 = Ok s2 /\ visible s2 = false /\ display s2 = None /\
    forall d', listenersOf (inputListeners s2) d'
               = listenersOf (inputListeners busyStart) d'.
Proof.
  apply (click_twice_restores 7 [0] (<[0 := [3; 4]]> ∅) [] busyStart 0 []).
  - exact busy_fresh.
  - reflexivity.
  - reflexivity.
  - reflexivity.
Defined.

Lemma dispose_detaches_witness :
  exists s', disposeComboBox 7 busyOpen = Ok s' /\
    (forall d, ~ attachedTo 7 s' d) /\
    (forall d, othersOn 7 s' d = othersOn 7 busyOpen d) /\
    display s' = display busyOpen /\
    (visible busyOpen = false -> s' = busyOpen).
Proof.
  apply (dispose_detaches 7 [0] (<[0 := [3; 4]]> ∅) [ButtonFire] busyOpen).
  - exact busy_fresh.
  - reflexivity.
Defined.

(** The scene changes while the list box is open: closing detaches the
    listener from the display it was attached to, not from the display
    that is rooted now, and the next opening uses the new display. *)
Example scene_change_while_open :
  (run 7 [ButtonFire; SceneChange [5]; HideListBox; ShowListBox] busyStart)
    ≫= (fun s => Ok (display s, listenersOf (inputListeners s) 0,
                      listenersOf (inputListeners s) 5))
  = Ok (Some 5, [3; 4], [7]).
Proof. reflexivity. Qed.

End ComboBoxMoreFacts.

(* ===================================================================== *)
(** * Properties of ComboBoxButton *)
(* ===================================================================== *)

Module ComboBoxButtonFacts.
Import ComboBoxButton.

Lemma blockedIn_nil : ~ blockedIn [].
Proof. intros (l1 & l2 & H & _). by destruct l1. Qed.

Lemma blockedIn_snoc pre i :
  blockedIn (pre ++ [i]) <-> i = Block \/ (i <> Focus /\ blockedIn pre).
Proof.
  split.
  - intros (l1 & l2 & H & Hno).
    destruct l2 as [|y l2 _] using rev_ind.
    + apply app_inj_tail in H as [_ ->]. by left.
    + change (l1 ++ Block :: l2 ++ [y]) with (l1 ++ (Block :: l2) ++ [y]) in H.
      rewrite app_assoc in H. apply app_inj_tail in H as [-> ->].
      right. split; [set_solver|]. exists l1, l2. set_solver.
  - intros [->|[Hne (l1 & l2 & -> & Hno)]].
    + exists pre, []. set_solver.
    + exists l1, (l2 ++ [i]). split; [by rewrite <- app_assoc|]. set_solver.
Qed.

Lemma run_blocked pre :
  _blockNextVoicingFocusListener (run pre fresh) = true <-> blockedIn pre.
Proof.
  induction pre as [|i pre IH] using rev_ind.
  - cbn. split; [done|]. intros H. by apply blockedIn_nil in H.
  - unfold run in *. rewrite foldl_app, blockedIn_snoc, <- IH. simpl.
    destruct i; simpl; intuition congruence.
Qed.

(** Blocking holds back exactly one focus response: a focus is spoken
    exactly when no block was asked for since the previous focus. Several
    blocks in a row hold back one response, not several, and changes of
    the display-only mode neither use up nor lift a block. *)
Theorem block_holds_back_one_focus pre :
  (spoken (run (pre ++ [Focus]) fresh) = spoken (run pre fresh) <-> blockedIn pre)
  /\ (spoken (run (pre ++ [Focus]) fresh) = S (spoken (run pre fresh))
      <-> ~ blockedIn pre)
  /\ ~ blockedIn (pre ++ [Focus]).
Proof.
  assert (Hrun : run (pre ++ [Focus]) fresh = voicingFocusListener (run pre fresh)).
  { unfold run. by rewrite foldl_app. }
  rewrite Hrun. pose proof (run_blocked pre) as Hb.
  split; [|split].
  - simpl. destruct (_blockNextVoicingFocusListener (run pre fresh)).
    + split; [intros _; by apply Hb|done].
    + split; [lia|]. intros H%Hb. done.
  - simpl. destruct (_blockNextVoicingFocusListener (run pre fresh)).
    + split; [lia|]. intros Hn. destruct Hn. by apply Hb.
    + split; [|done]. intros _ H%Hb. done.
  - rewrite blockedIn_snoc. intros [?|[? _]]; done.
Qed.

(** When the Property changes, the button drops what it showed and
    shows the node of the first item that has the new value, whatever
    follows in the list; its inner content is that item's label, or
    null for a missing or empty label. The voice flag and count are not
    touched. It throws exactly when no item has the value. *)
Theorem button_shows_first_matching_item {T} `{EqDecision T}
    (items : list (Item T)) (v : T) (s : State) :
  match propertyObserver items v s with
  | ComboBox.Ok s' =>
    exists i item, items !! i = Some item /\ value item = v /\
      (forall j other, items !! j = Some other -> j < i -> value other <> v) /\
      wrapperChildren s' = [i] /\
      innerContent s' = orNull (a11yLabel item) /\
      (a11yLabel item = Some ""%string -> innerContent s' = None) /\
      spoken s' = spoken s /\
      _blockNextVoicingFocusListener s' = _blockNextVoicingFocusListener s
  | ComboBox.Throws _ => forall item, item ∈ items -> value item <> v
  end.
Proof.
  unfold propertyObserver.
  destruct (list_find (fun it => value it = v) items) as [[i item]|] eqn:Hfind.
  - apply list_find_Some in Hfind as (Hi & Hv & Hfirst).
    exists i, item. simpl. repeat split; try done.
    intros ->. done.
  - apply list_find_None in Hfind. intros item Hin.
    by apply (proj1 (Forall_forall _ _) Hfind).
Qed.

(** With the sample items: the value 30 has an empty label, the value 40
    belongs to no item. *)
Example sample_button_items :
  (exists s', propertyObserver sampleItems 30 fresh = ComboBox.Ok s' /\
     wrapperChildren s' = [2] /\ innerContent s' = None) /\
  (exists s', propertyObserver sampleItems 10 fresh = ComboBox.Ok s' /\
     wrapperChildren s' = [0] /\ innerContent s' = Some "ten"%string) /\
  exists msg, propertyObserver sampleItems 40 fresh = ComboBox.Throws msg.
Proof. repeat split; eexists; repeat split; reflexivity. Qed.

End ComboBoxButtonFacts.

(* ===================================================================== *)
(** * Properties of the combo box with a popup list *)
(* ===================================================================== *)

Module LegacyComboBoxFacts.
Import LegacyComboBox.

Section Facts.
Context {T : Type} `{EqDecision T}.
Variable items : list T.
Variable l : nat.
Implicit Types (s : @State T) (d : nat).

Lemma legacy_hide s :
  consistent items l s ->
  exists s', hideList l s = Returns s' /\ consistent items l s' /\
    visible s' = false /\ sameSelection s s' /\
    (visible s = false -> inputListeners s' = inputListeners s).
Proof.
  intros [Hc Hf]. unfold hideList.
  destruct (visible s) eqn:Hv.
  - destruct Hc as (d & Hd & Hat). rewrite Hd.
    assert (Hin : l ∈ ComboBox.listenersOf (inputListeners s) d) by by apply Hat.
    unfold ComboBox.removeInputListener, ComboBox.hasInputListener.
    rewrite !bool_decide_eq_true_2 by done.
    eexists. split; [done|]. unfold consistent, sameSelection. simpl.
    repeat split; try done.
    intros d'. unfold attachedTo. simpl.
    rewrite ComboBoxFacts.listenersOf_insert.
    destruct (decide (d = d')) as [->|Hne].
    + rewrite list_elem_of_filter. naive_solver.
    + intros Hd'. apply Hat in Hd'. by subst.
  - destruct (display s) as [d|] eqn:Hd.
    + unfold ComboBox.hasInputListener.
      rewrite bool_decide_eq_false_2 by apply Hc.
      eexists. split; [done|]. unfold consistent, sameSelection. simpl.
      repeat split; done.
    + eexists. split; [done|]. unfold consistent, sameSelection. simpl.
      repeat split; done.
Qed.

Lemma legacy_show s d :
  consistent items l s -> visible s = false -> head (rootedDisplays s) = Some d ->
  exists s', showList l s = Returns s' /\ consistent items l s' /\
    visible s' = true /\ display s' = Some d /\
    enableClickToDismissListener s' = false /\
    value s' = value s /\ focusedItem s' = focusedItem s /\
    fromA11yEnterKey s' = fromA11yEnterKey s /\
    rootedDisplays s' = rootedDisplays s.
Proof.
  intros [Hc Hf] Hv Hd. rewrite Hv in Hc. unfold showList. rewrite Hv. simpl.
  rewrite Hd. unfold ComboBox.addInputListener, ComboBox.hasInputListener.
  rewrite bool_decide_eq_false_2 by apply Hc.
  eexists. split; [done|]. unfold consistent. simpl. repeat split; try done.
  exists d. split; [done|]. intros d'. unfold attachedTo. simpl.
  rewrite ComboBoxFacts.listenersOf_insert. destruct (decide (d = d')) as [->|Hne].
  - split; [done|]. intros _. set_solver.
  - split; [by intros ?%Hc|]. by intros ->.
Qed.

Lemma legacy_show_visible s :
  visible s = true -> showList l s = Returns s.
Proof. intros Hv. unfold showList. by rewrite Hv. Qed.

(** Changes that touch neither visibility, registry, display nor focus. *)
Lemma consistent_emit xs s :
  consistent items l s -> consistent items l (emit xs s).
Proof. done. Qed.

Lemma consistent_with_value v s :
  consistent items l s -> consistent items l (with_value v s).
Proof. done. Qed.

Lemma consistent_with_from b s :
  consistent items l s -> consistent items l (with_fromA11yEnterKey b s).
Proof. done. Qed.

Lemma consistent_with_enable b s :
  consistent items l s -> consistent items l (with_enable b s).
Proof. done. Qed.

Lemma consistent_with_focus i s :
  consistent items l s -> i < length items ->
  consistent items l (with_focusedItem i s).
Proof.
  intros [Hc Hf] Hi. split; [done|]. simpl. intros j [= <-]. done.
Qed.

Lemma child_Some z j :
  child items z = Some j <-> (0 <= z < Z.of_nat (length items))%Z /\ j = Z.to_nat z.
Proof.
  unfold child. case_bool_decide; split.
  - intros [= <-]. done.
  - intros [_ ->]. done.
  - done.
  - intros [? _]. done.
Qed.

(** The loop acts at the focused item only, and once. *)
Lemma navigate_seq direction a k s i :
  focusedItem s = Some i ->
  navigate items direction (seq a k) s =
    if bool_decide (a <= i < a + k) then
      match child items (Z.of_nat i + direction) with
      | Some j => moved i j s
      | None => s
      end
    else s.
Proof.
  intros Hf. revert a. induction k as [|k IH]; intros a.
  - simpl. rewrite bool_decide_eq_false_2 by lia. done.
  - simpl. rewrite Hf. case_bool_decide as Hi.
    + injection Hi as <-. rewrite bool_decide_eq_true_2 by lia.
      destruct (child items (Z.of_nat i + direction)) as [j|] eqn:Hj; [done|].
      rewrite IH. rewrite bool_decide_eq_false_2 by lia. done.
    + rewrite IH. assert (i <> a) by congruence.
      destruct (bool_decide (S a <= i < S a + k)) eqn:Hb.
      * apply bool_decide_eq_true in Hb. rewrite bool_decide_eq_true_2 by lia. done.
      * apply bool_decide_eq_false in Hb. rewrite bool_decide_eq_false_2 by lia. done.
Qed.

Lemma navigate_unfocused direction todo s :
  focusedItem s = None -> navigate items direction todo s = s.
Proof.
  intros Hf. induction todo as [|i todo IH]; [done|].
  simpl. rewrite Hf. rewrite bool_decide_eq_false_2 by done. done.
Qed.

Lemma navigate_consistent direction todo s :
  consistent items l s -> consistent items l (navigate items direction todo s).
Proof.
  intros Hc. induction todo as [|i todo IH]; [done|].
  simpl. case_bool_decide; [|done].
  destruct (child items (Z.of_nat i + direction)) as [j|] eqn:Hj; [|done].
  apply child_Some in Hj as [Hr ->].
  apply consistent_with_focus; [by apply consistent_emit|]. lia.
Qed.

Lemma navigate_keeps direction todo s :
  visible (navigate items direction todo s) = visible s /\
  value (navigate items direction todo s) = value s /\
  rootedDisplays (navigate items direction todo s) = rootedDisplays s /\
  inputListeners (navigate items direction todo s) = inputListeners s /\
  fromA11yEnterKey (navigate items direction todo s) = fromA11yEnterKey s.
Proof.
  induction todo as [|i todo IH]; [done|].
  simpl. case_bool_decide; [|done].
  by destruct (child items (Z.of_nat i + direction)).
Qed.

(** The loop that focuses the selected item keeps everything but the
    focus, which ends on a node of the list whose value is the value of
    the Property when the first [k] nodes have one. *)
Lemma focus_fold k s :
  k <= length items ->
  let s' := foldl (focusStep items) s (seq 0 k) in
  visible s' = visible s /\ value s' = value s /\
  display s' = display s /\ inputListeners s' = inputListeners s /\
  rootedDisplays s' = rootedDisplays s /\
  fromA11yEnterKey s' = fromA11yEnterKey s /\
  enableClickToDismissListener s' = enableClickToDismissListener s /\
  ((exists j, j < k /\ items !! j = Some (value s)) ->
   exists j, j < k /\ focusedItem s' = Some j /\ items !! j = Some (value s)) /\
  ((forall j, j < k -> items !! j <> Some (value s)) ->
   focusedItem s' = focusedItem s).
Proof.
  induction k as [|k IH]; intros Hk; cbv zeta.
  - simpl. repeat split; try done. intros (j & ? & _). lia.
  - rewrite seq_S, foldl_app. simpl.
    destruct IH as (Hv & Hval & Hd & Hw & Hr & Hfrom & Hen & Hsome & Hnone); [lia|].
    set (s1 := foldl (focusStep items) s (seq 0 k)) in *.
    unfold focusStep at 1 2 3 4 5 6 7 8 9.
    destruct (items !! k) as [v|] eqn:Hik.
    2: { apply lookup_ge_None in Hik. lia. }
    rewrite Hval. case_bool_decide as Heq; simpl.
    + subst v. repeat split; try done.
      * intros _. exists k. split; [lia|]. done.
      * intros Hno. destruct (Hno k); [lia|done].
    + repeat split; try done.
      * intros (j & Hj & Hij).
        assert (j <> k). { intros ->. rewrite Hik in Hij. congruence. }
        destruct Hsome as (j' & ? & ? & ?); [exists j; split; [lia|done]|].
        exists j'. split; [lia|]. done.
      * intros Hno. apply Hnone. intros j Hj. apply Hno. lia.
Qed.

Lemma focus_fold_consistent s :
  consistent items l s ->
  consistent items l (foldl (focusStep items) s (seq 0 (length items))).
Proof.
  intros Hc. generalize (seq 0 (length items)) as todo.
  intros todo. revert s Hc. induction todo as [|i todo IH]; intros s Hc; [done|].
  simpl. apply IH. unfold focusStep.
  destruct (items !! i) as [v|] eqn:Hi; [|done].
  case_bool_decide; [|done].
  apply consistent_emit, consistent_with_focus; [done|].
  by apply lookup_lt_Some in Hi.
Qed.

Lemma legacy_step s i :
  consistent items l s -> fromA11yEnterKey s = false -> rootedDisplays s <> [] ->
  i <> SceneChange [] -> readsButtonNode items i = false ->
  exists s', step items l i s = Returns s' /\ consistent items l s' /\
    fromA11yEnterKey s' = false /\ rootedDisplays s' <> [].
Proof.
  intros Hc Hfl Hr Hi Hb.
  destruct i as [|d|i|i|i|i|i code|code| |code|ds|v]; simpl.
  - destruct (visible s) eqn:Hv.
    + rewrite legacy_show_visible by done. by exists s.
    + destruct (rootedDisplays s) as [|d ds] eqn:Hds; [done|].
      destruct (legacy_show s d) as (s' & -> & ? & _ & _ & _ & _ & _ & Hfl' & Hr');
        [done|done|by rewrite Hds|].
      exists s'. split; [done|]. split; [done|]. split; [congruence|].
      by rewrite Hr', Hds.
  - unfold dispatchDown, hideListFromClick.
    destruct (ComboBox.hasInputListener d l (inputListeners s)); [|by exists s].
    destruct (enableClickToDismissListener s).
    + destruct (legacy_hide s Hc) as (s' & -> & ? & _ & (_ & _ & Hfl' & Hr' & _) & _).
      exists s'. by rewrite Hfl', Hr'.
    + eexists. split; [done|]. split; [by apply consistent_with_enable|done].
  - unfold onItem. destruct (items !! i); by eexists.
  - unfold onItem. destruct (items !! i); by eexists.
  - unfold onItem. destruct (items !! i); by eexists.
  - unfold onItem. destruct (items !! i) as [v|]; [|by eexists].
    unfold firedListener.
    destruct (legacy_hide (emit [UpdateActiveDescendant i] s))
      as (s' & -> & ? & _ & (_ & _ & Hfl' & Hr' & _) & _); [done|].
    simpl. eexists. split; [done|]. split; [done|]. simpl. by rewrite Hfl', Hr'.
  - unfold onItem. destruct (items !! i) as [v|] eqn:Hv; [|by eexists].
    unfold a11yClickListener_keydown. simpl in Hb.
    apply lookup_lt_Some in Hv. rewrite bool_decide_eq_true_2 in Hb by done.
    simpl in Hb. apply orb_false_elim in Hb as [Hb1 Hb2].
    apply bool_decide_eq_false in Hb1, Hb2.
    rewrite !bool_decide_eq_false_2 by congruence. by exists s.
  - unfold handleKeyDown. simpl in Hb. rewrite Hb.
    destruct (bool_decide (code = KEY_DOWN_ARROW) || bool_decide (code = KEY_UP_ARROW)).
    { eexists. split; [done|]. split; [by apply navigate_consistent|].
      destruct (navigate_keeps
                  (if bool_decide (code = KEY_DOWN_ARROW) then 1%Z else (-1)%Z)
                  (seq 0 (length items)) s) as (_ & _ & -> & _ & ->). done. }
    destruct (bool_decide (code = KEY_TAB)); [|by eexists].
    destruct (legacy_hide s Hc) as (s' & -> & ? & _ & (_ & _ & Hfl' & Hr' & _) & _).
    exists s'. by rewrite Hfl', Hr'.
  - unfold a11yListener_click. destruct (visible s) eqn:Hv.
    { destruct (legacy_hide s Hc) as (s' & -> & ? & _ & (_ & _ & Hfl' & Hr' & _) & _).
      simpl. eexists. split; [done|]. split; [done|]. simpl. by rewrite Hfl', Hr'. }
    rewrite Hfl. simpl.
    destruct (rootedDisplays s) as [|d ds] eqn:Hds; [done|].
    destruct (legacy_show s d) as (s' & -> & ? & _ & _ & _ & _ & _ & Hfl' & Hr');
      [done|done|by rewrite Hds|].
    simpl. eexists. split; [done|]. split; [by apply focus_fold_consistent|].
    destruct (focus_fold (length items) s') as (_ & _ & _ & _ & -> & -> & _); [lia|].
    split; [congruence|]. by rewrite Hr', Hds.
  - unfold a11yListener_keydown. destruct (visible s); [|by eexists].
    case_bool_decide; [|by eexists].
    destruct (legacy_hide s Hc) as (s' & -> & ? & _ & (_ & _ & Hfl' & Hr' & _) & _).
    exists s'. by rewrite Hfl', Hr'.
  - eexists. split; [done|]. split; [done|]. simpl. split; [done|]. by intros ->.
  - eexists. split; [done|]. split; [by apply consistent_with_value|done].
Qed.

Lemma legacy_run ins s :
  consistent items l s -> fromA11yEnterKey s = false -> rootedDisplays s <> [] ->
  safeInputs items ins ->
  exists s', run items l ins s = Returns s' /\ consistent items l s' /\
    fromA11yEnterKey s' = false /\ rootedDisplays s' <> [].
Proof.
  revert s. induction ins as [|i ins IH]; intros s Hc Hfl Hr Hro.
  - by exists s.
  - apply Forall_cons in Hro as [[Hi Hb] Hro].
    destruct (legacy_step s i) as (s1 & Hs1 & Hc1 & Hfl1 & Hr1); [done..|].
    destruct (IH s1) as (s' & Hs' & ?); [done..|].
    exists s'. split; [|done]. simpl. by rewrite Hs1.
Qed.

Lemma legacy_reaches ds w v ins s :
  reaches items l ds w v ins s ->
  consistent items l s /\ fromA11yEnterKey s = false /\ rootedDisplays s <> [].
Proof.
  intros (Hfresh & Hds & Hro & Hrun).
  destruct (legacy_run ins (init ds w v)) as (s' & Hs' & ?); [|done|done|done|].
  - split; [|done]. exact Hfresh.
  - rewrite Hs' in Hrun. by injection Hrun as <-.
Qed.


(** Showing the list with the button makes the dismiss listener ignore
    one down: the first down that reaches the display afterwards leaves
    the list open, the second closes it. A down on another display
    does not reach the listener. *)
Theorem first_down_only_arms ds w v ins s d :
  reaches items l ds w v ins s ->
  visible s = false -> head (rootedDisplays s) = Some d ->
  exists s1 s2 s3,
    step items l ButtonDown s = Returns s1 /\ visible s1 = true /\
    step items l (DisplayDown d) s1 = Returns s2 /\ visible s2 = true /\
    step items l (DisplayDown d) s2 = Returns s3 /\ visible s3 = false /\
    forall d', d' <> d -> step items l (DisplayDown d') s2 = Returns s2.
Proof.
  intros (Hc & _ & Hr)%legacy_reaches Hv Hd.
  destruct (legacy_show s d) as (s1 & Hs1 & Hc1 & Hv1 & Hd1 & Hen1 & _); [done..|].
  exists s1, (with_enable true s1).
  assert (Hat : forall d', attachedTo l s1 d' <-> d' = d).
  { destruct Hc1 as [Hc1 _]. rewrite Hv1 in Hc1.
    destruct Hc1 as (d0 & Hd0 & Hat). rewrite Hd1 in Hd0. by injection Hd0 as <-. }
  assert (Hc2 : consistent items l (with_enable true s1))
    by by apply consistent_with_enable.
  destruct (legacy_hide _ Hc2) as (s3 & Hs3 & _ & Hv3 & _).
  exists s3. simpl. unfold dispatchDown, ComboBox.hasInputListener. simpl.
  rewrite bool_decide_eq_true_2 by by apply Hat.
  unfold hideListFromClick. rewrite Hen1. simpl.
  repeat split; try done.
  intros d' Hne. rewrite bool_decide_eq_false_2; [done|].
  intros Hd'. by apply Hat in Hd'.
Qed.

(** The arrow keys move the focus by one item and stop at the ends of
    the list: down goes from item [i] to the next one unless [i] is the
    last, up to the previous one unless [i] is the first. Nothing has
    the focus afterwards if nothing had it before, and neither key shows
    or hides the list or selects a value. *)
Theorem arrow_keys_move_focus_by_one s :
  (forall i, focusedItem s = Some i -> i < length items) ->
  exists sd su,
    handleKeyDown items l KEY_DOWN_ARROW s = Returns sd /\
    focusedItem sd = (fun i => Nat.min (i + 1) (length items - 1)) <$> focusedItem s /\
    handleKeyDown items l KEY_UP_ARROW s = Returns su /\
    focusedItem su = (fun i => i - 1) <$> focusedItem s /\
    visible sd = visible s /\ value sd = value s /\
    visible su = visible s /\ value su = value s.
Proof.
  intros Hf. unfold handleKeyDown. simpl.
  do 2 eexists. split; [done|]. split; [|split; [done|split]].
  - destruct (focusedItem s) as [i|] eqn:Hi.
    + rewrite (navigate_seq _ _ _ _ i Hi). specialize (Hf i eq_refl).
      rewrite bool_decide_eq_true_2 by lia.
      destruct (child items (Z.of_nat i + 1)) as [j|] eqn:Hj; simpl.
      * apply child_Some in Hj as [? ->]. f_equal. lia.
      * rewrite Hi. simpl. f_equal.
        unfold child in Hj. case_bool_decide; [done|]. lia.
    + by rewrite navigate_unfocused, Hi.
  - destruct (focusedItem s) as [i|] eqn:Hi.
    + rewrite (navigate_seq _ _ _ _ i Hi). specialize (Hf i eq_refl).
      rewrite bool_decide_eq_true_2 by lia.
      destruct (child items (Z.of_nat i + -1)) as [j|] eqn:Hj; simpl.
      * apply child_Some in Hj as [? ->]. f_equal. lia.
      * rewrite Hi. simpl. f_equal.
        unfold child in Hj. case_bool_decide; [done|]. lia.
    + by rewrite navigate_unfocused, Hi.
  - pose proof (navigate_keeps 1 (seq 0 (length items)) s) as (? & ? & _).
    pose proof (navigate_keeps (-1) (seq 0 (length items)) s) as (? & ? & _).
    done.
Qed.

(** Releasing the pointer on an item closes the list, writes the item's
    value to the Property and aborts the event; afterwards the dismiss
    listener is registered nowhere. *)
Theorem pointer_selection_sets_value_and_closes ds w v0 ins s i v :
  reaches items l ds w v0 ins s -> items !! i = Some v ->
  exists s', step items l (ItemUp i) s = Returns s' /\
    value s' = v /\ visible s' = false /\ (forall d, ~ attachedTo l s' d) /\
    exists fx, effects s' = fx ++ [SetHighlightVisible i false; AbortEvent].
Proof.
  intros (Hc & _ & Hr)%legacy_reaches Hi.
  simpl. unfold onItem. rewrite Hi. unfold firedListener.
  destruct (legacy_hide (emit [UpdateActiveDescendant i] s))
    as (s' & -> & [Hc' _] & Hv' & _); [done|].
  simpl. eexists. split; [done|]. simpl. rewrite Hv' in Hc'.
  repeat split; try done. by eexists.
Qed.


(** Choosing an item with Enter or Space throws: the listener writes
    the item's value to the Property and closes the list, and then
    reads the field [buttonNode], which holds nothing. Escape on the
    list closes it and throws in the same way. Any other key on an item
    does nothing. *)
Theorem keyboard_selection_throws ds w v0 ins s i v :
  reaches items l ds w v0 ins s -> items !! i = Some v ->
  (forall code, exists s',
     step items l (ItemKeydown i code) s =
       (if bool_decide (code = KEY_ENTER \/ code = KEY_SPACE)
        then ThrowsAfter "TypeError: this.buttonNode is undefined" s'
        else Returns s') /\
     if bool_decide (code = KEY_ENTER \/ code = KEY_SPACE)
     then value s' = v /\ visible s' = false /\ (forall d, ~ attachedTo l s' d) /\
          fromA11yEnterKey s' = bool_decide (code = KEY_ENTER)
     else s' = s) /\
  exists s', step items l (ListKeydown KEY_ESCAPE) s =
      ThrowsAfter "TypeError: this.buttonNode is undefined" s' /\
    value s' = value s /\ visible s' = false /\ (forall d, ~ attachedTo l s' d).
Proof.
  intros (Hc & Hfl & Hr)%legacy_reaches Hi. split.
  - intros code. simpl. unfold onItem. rewrite Hi.
    unfold a11yClickListener_keydown.
    destruct (decide (code = KEY_ENTER \/ code = KEY_SPACE)) as [Hcode|Hcode];
      [rewrite !(bool_decide_eq_true_2 _ Hcode)
      |rewrite !(bool_decide_eq_false_2 _ Hcode)].
    + assert (Hk : bool_decide (KEY_ENTER = code) || bool_decide (KEY_SPACE = code) = true).
      { destruct Hcode as [->| ->]; done. }
      rewrite Hk.
      destruct (legacy_hide
                  (with_value v (with_fromA11yEnterKey (bool_decide (KEY_ENTER = code)) s)))
        as (s' & -> & [Hc' _] & Hv' & (Hval & _ & Hfrom & _) & _); [done|].
      simpl. exists s'. split; [done|]. rewrite Hv' in Hc'.
      repeat split; try done.
      rewrite Hfrom. simpl. destruct Hcode as [->| ->]; done.
    + exists s. split; [|done].
      rewrite !bool_decide_eq_false_2; [done|..]; intros Heq; apply Hcode; auto.
  - simpl. unfold handleKeyDown. simpl.
    destruct (legacy_hide s Hc) as (s' & -> & [Hc' _] & Hv' & (Hval & _) & _).
    simpl. exists s'. rewrite Hv' in Hc'. done.
Qed.

End Facts.

Lemma legacy_sample_fresh d : 7 ∉ ComboBox.listenersOf (∅ : gmap nat (list nat)) d.
Proof. unfold ComboBox.listenersOf. rewrite lookup_empty. simpl. set_solver. Qed.

Lemma legacy_sample_reaches :
  reaches sampleItems 7 [0] ∅ 10 [] sampleStart.
Proof.
  split; [exact legacy_sample_fresh|]. split; [done|]. split; [constructor|done].
Qed.


Lemma first_down_only_arms_witness :
  exists s1 s2 s3,
    step sampleItems 7 ButtonDown sampleStart = Returns s1 /\ visible s1 = true /\
    step sampleItems 7 (DisplayDown 0) s1 = Returns s2 /\ visible s2 = true /\
    step sampleItems 7 (DisplayDown 0) s2 = Returns s3 /\ visible s3 = false /\
    forall d', d' <> 0 -> step sampleItems 7 (DisplayDown d') s2 = Returns s2.
Proof.
  apply (first_down_only_arms sampleItems 7 [0] ∅ 10 [] sampleStart 0).
  - exact legacy_sample_reaches.
  - reflexivity.
  - reflexivity.
Defined.

Lemma arrow_keys_move_focus_by_one_witness :
  exists sd su,
    handleKeyDown sampleItems 7 KEY_DOWN_ARROW (with_focusedItem 2 sampleStart)
      = Returns sd /\
    focusedItem sd = Some 2 /\
    handleKeyDown sampleItems 7 KEY_UP_ARROW (with_focusedItem 2 sampleStart)
      = Returns su /\
    focusedItem su = Some 1 /\
    visible sd = false /\ value sd = 10 /\ visible su = false /\ value su = 10.
Proof.
  apply (arrow_keys_move_focus_by_one sampleItems 7 (with_focusedItem 2 sampleStart)).
  simpl. intros i [= <-]. lia.
Defined.

Lemma pointer_selection_sets_value_and_closes_witness :
  exists s', step sampleItems 7 (ItemUp 1) sampleStart = Returns s' /\
    value s' = 20 /\ visible s' = false /\ (forall d, ~ attachedTo 7 s' d) /\
    exists fx, effects s' = fx ++ [SetHighlightVisible 1 false; AbortEvent].
Proof.
  apply (pointer_selection_sets_value_and_closes
           sampleItems 7 [0] ∅ 10 [] sampleStart 1 20).
  - exact legacy_sample_reaches.
  - reflexivity.
Defined.


Lemma keyboard_selection_throws_witness :
  (forall code, exists s',
     step sampleItems 7 (ItemKeydown 1 code) sampleStart =
       (if bool_decide (code = KEY_ENTER \/ code = KEY_SPACE)
        then ThrowsAfter "TypeError: this.buttonNode is undefined" s'
        else Returns s') /\
     if bool_decide (code = KEY_ENTER \/ code = KEY_SPACE)
     then value s' = 20 /\ visible s' = false /\ (forall d, ~ attachedTo 7 s' d) /\
          fromA11yEnterKey s' = bool_decide (code = KEY_ENTER)
     else s' = sampleStart) /\
  exists s', step sampleItems 7 (ListKeydown KEY_ESCAPE) sampleStart =
      ThrowsAfter "TypeError: this.buttonNode is undefined" s' /\
    value s' = 10 /\ visible s' = false /\ (forall d, ~ attachedTo 7 s' d).
Proof.
  apply (keyboard_selection_throws sampleItems 7 [0] ∅ 10 [] sampleStart 1 20).
  - exact legacy_sample_reaches.
  - reflexivity.
Defined.

(** In a scene without a display the list cannot be shown: the call
    throws after the list was made visible. *)
Example show_without_display_throws :
  exists s, step sampleItems 7 ButtonDown (init [] (∅ : gmap nat (list nat)) 10)
    = ThrowsAfter "TypeError: this.display is undefined" s /\ visible s = true.
Proof. eexists. split; reflexivity. Qed.

End LegacyComboBoxFacts.

(* ===================================================================== *)
(** * Properties of DemosScreenView *)
(* ===================================================================== *)

Module DemosScreenViewFacts.
Import DemosScreenView.

Lemma creations_app s xs :
  creations (emit xs s) =
  creations s ++ omap (fun e => match e with CreateNode d => Some d | _ => None end) xs.
Proof. unfold creations. simpl. by rewrite omap_app. Qed.

Lemma disposals_app s xs :
  disposals (emit xs s) =
  disposals s ++ omap (fun e => match e with Dispose d => Some d | _ => None end) xs.
Proof. unfold disposals. simpl. by rewrite omap_app. Qed.

Lemma enter_tidy (cacheDemos : bool) demo s :
  (forall d : nat, d ∈ children s <-> d ∈ node s) -> NoDup (children s) ->
  selectedDemo s = demo ->
  (if cacheDemos
   then disposals s = [] /\ NoDup (creations s) /\
        forall d : nat, d ∈ creations s <-> d ∈ node s
   else node s = ∅) ->
  exists s', selectedDemoListener cacheDemos demo None s = ComboBox.Ok s' /\
    tidy cacheDemos s' /\ selectedDemo s' = demo /\ node s ⊆ node s'.
Proof.
  intros Hch Hnd Hsel Hc. unfold selectedDemoListener.
  cbn [mbind ComboBox.result_bind]. case_bool_decide as Hin.
  - eexists. split; [done|]. unfold tidy. simpl. rewrite Hsel.
    split; [|done]. split; [done|]. split; [done|]. split; [done|].
    destruct cacheDemos; [|set_solver].
    change (disposals (emit [SetVisible demo true] s) = [] /\
            NoDup (creations (emit [SetVisible demo true] s)) /\
            forall d, d ∈ creations (emit [SetVisible demo true] s) <-> d ∈ node s).
    rewrite creations_app, disposals_app. simpl. by rewrite !app_nil_r.
  - eexists. split; [done|]. unfold tidy. simpl. rewrite Hsel.
    split; [|split; [done|set_solver]].
    split; [set_solver|]. split; [set_solver|].
    split. { apply NoDup_app. split; [done|]. split; [|apply NoDup_singleton].
             intros d Hd ->%list_elem_of_singleton. by apply Hch in Hd. }
    destruct cacheDemos; [|set_solver].
    destruct Hc as (Hdis & Hcnd & Hcr).
    unfold disposals, creations in *. simpl. rewrite !omap_app. simpl.
    rewrite Hdis. split; [done|]. split; [|set_solver].
    apply NoDup_app. split; [done|]. split; [|apply NoDup_singleton].
    intros d Hd ->%list_elem_of_singleton. by apply Hcr in Hd.
Qed.

Lemma select_tidy (cacheDemos : bool) demo s :
  tidy cacheDemos s ->
  exists s', select cacheDemos demo s = ComboBox.Ok s' /\
    tidy cacheDemos s' /\ selectedDemo s' = demo /\
    (cacheDemos = true -> node s ⊆ node s').
Proof.
  intros (Hsel & Hch & Hnd & Hc). unfold select.
  case_bool_decide as Heq; [by exists s|].
  unfold selectedDemoListener. simpl.
  rewrite bool_decide_eq_true_2 by done.
  destruct cacheDemos.
  - destruct (enter_tidy true demo
                (emit [SetVisible (selectedDemo s) false]
                   {| selectedDemo := demo; node := node s;
                      children := children s; effects := effects s |}))
      as (s' & Hs' & Ht & ? & ?); try done.
    { destruct Hc as (Hdis & Hcnd & Hcr).
      rewrite creations_app, disposals_app. simpl. rewrite !app_nil_r. done. }
    exists s'. done.
  - destruct (enter_tidy false demo
                {| selectedDemo := demo; node := node s ∖ {[selectedDemo s]};
                   children := filter (fun d => d <> selectedDemo s) (children s);
                   effects := effects s ++ [RemoveChild (selectedDemo s);
                                            Dispose (selectedDemo s)] |})
      as (s' & Hs' & Ht & ? & ?); simpl; try done.
    { intros d. rewrite list_elem_of_filter, Hch. set_solver. }
    { by apply NoDup_filter. }
    { set_solver. }
    exists s'. done.
Qed.

Lemma run_tidy (cacheDemos : bool) demos s :
  tidy cacheDemos s ->
  exists s', run cacheDemos demos s = ComboBox.Ok s' /\ tidy cacheDemos s' /\
    last (selectedDemo s :: demos) = Some (selectedDemo s') /\
    (cacheDemos = true -> node s ⊆ node s' /\ forall d, d ∈ demos -> d ∈ node s').
Proof.
  revert s. induction demos as [|d demos IH]; intros s Ht.
  - exists s. split; [done|]. split; [done|]. split; [done|].
    intros _. split; [done|]. intros d Hd. by apply elem_of_nil in Hd.
  - destruct (select_tidy cacheDemos d s Ht) as (s1 & Hs1 & Ht1 & Hsel1 & Hsub1).
    destruct (IH s1 Ht1) as (s' & Hs' & Ht' & Hsel' & Hsub').
    exists s'. simpl. rewrite Hs1. cbn [mbind ComboBox.result_bind].
    split; [done|]. split; [done|]. split.
    + rewrite Hsel1 in Hsel'. exact Hsel'.
    + intros Hcache. destruct (Hsub' Hcache) as [Hsub Hall].
      specialize (Hsub1 Hcache). split; [set_solver|].
      intros d0 [->|Hd0]%elem_of_cons; [|by apply Hall].
      destruct Ht1 as (Hin & _). rewrite Hsel1 in Hin. set_solver.
Qed.

Lemma upfront_effects (all : list nat) :
  omap (fun e => match e with CreateNode d => Some d | _ => None end)
       (all ≫= (fun d => [CreateNode d; SetVisible d false; AddChild d])) = all /\
  omap (fun e => match e with Dispose d => Some d | _ => None end)
       (all ≫= (fun d => [CreateNode d; SetVisible d false; AddChild d])) = [].
Proof.
  induction all as [|d all [IH1 IH2]]; [done|].
  rewrite bind_cons, !omap_app, IH1, IH2. done.
Qed.



(** Without caching, going from demo 1 to demo 2 and back creates the
    node of demo 1 twice and disposes it once in between. *)
Example uncached_demo_is_rebuilt :
  exists s0 s, construct false false [0; 1; 2] 1 = ComboBox.Ok s0 /\
    run false [2; 1] s0 = ComboBox.Ok s /\
    creations s = [1; 2; 1] /\ disposals s = [1; 2] /\ children s = [1].
Proof. do 2 eexists. repeat split; reflexivity. Qed.

End DemosScreenViewFacts.
